(** * nestjs-encryption: the envelope codec of [EncryptionService]

    A shallow embedding of [src/lib/encryption.service.ts],
    [src/lib/encryption.ciphers.ts], [src/lib/encryption.errors.ts] and the
    key generator [src/cli/keygen.ts], together with the part of the Node.js
    runtime they call ([Buffer], [JSON], [node:crypto]).

    Conventions.
    - A JavaScript string is represented by the bytes of its UTF-8 encoding
      (a Rocq [string]); a [Buffer] is a [list byte].  Converting between the
      two in UTF-8 ([Buffer.from(s)], [buf.toString()]) is then the identity
      on bytes; text that is not well-formed Unicode is outside the model.
    - A thrown exception is the [Throw] branch of [Result]; [try]/[catch] is
      [catch].
    - [randomBytes] reads from an explicit entropy stream that every caller
      threads through. *)

From Stdlib Require Import List NArith ZArith Arith Bool Lia Btauto.
From Stdlib.Strings Require Import String Ascii Byte.
From Stdlib Require Import DecimalString.
Import ListNotations.
Open Scope string_scope.
Set Warnings "-register-all".

(** ** Buffers *)

Module Buffer.

Definition t : Type := list byte.

(** The byte with the given value modulo 256. *)
Definition byte_of_N (n : N) : byte :=
  match Byte.of_N (n mod 256) with
  | Some b => b
  | None => x00
  end.

Definition eqb (a b : t) : bool :=
  (List.length a =? List.length b)%nat && forallb (fun p => Byte.eqb (fst p) (snd p)) (combine a b).

(** [Buffer.from(s)] and [buf.toString()], both in UTF-8. *)
Definition from_utf8 (s : string) : t := list_byte_of_string s.
Definition toString (b : t) : string := string_of_list_byte b.

(** *** Base64

    [buf.toString("base64")] is the RFC 4648 encoding with padding. *)

Definition base64_alphabet : string :=
  "ABCDEFGHIJKLMNOPQRSTUVWXYZabcdefghijklmnopqrstuvwxyz0123456789+/".

Definition base64_char (n : N) : ascii :=
  nth (N.to_nat n) (list_ascii_of_string base64_alphabet) "="%char.

Fixpoint toString_base64 (b : t) : string :=
  match b with
  | [] => EmptyString
  | [x] =>
      let x := Byte.to_N x in
      String (base64_char (x / 4))
        (String (base64_char ((x mod 4) * 16)) "==")
  | [x; y] =>
      let x := Byte.to_N x in
      let y := Byte.to_N y in
      String (base64_char (x / 4))
        (String (base64_char ((x mod 4) * 16 + y / 16))
           (String (base64_char ((y mod 16) * 4)) "="))
  | x :: y :: z :: rest =>
      let x := Byte.to_N x in
      let y := Byte.to_N y in
      let z := Byte.to_N z in
      String (base64_char (x / 4))
        (String (base64_char ((x mod 4) * 16 + y / 16))
           (String (base64_char ((y mod 16) * 4 + z / 64))
              (String (base64_char (z mod 64)) (toString_base64 rest))))
  end%N.

(** [Buffer.from(s, "base64")] never throws on a string: Node's decoder is
    forgiving.  It reads the characters of the two base64 alphabets (standard
    and URL-safe), skips every other character, and stops at the first [=].
    Each complete group of four sextets gives three bytes; a last group of
    three gives two bytes, of two gives one byte, and a single left-over
    sextet gives none. *)

Definition unbase64 (c : ascii) : option N :=
  let n := N_of_ascii c in
  (if (65 <=? n) && (n <=? 90) then Some (n - 65)
  else if (97 <=? n) && (n <=? 122) then Some (n - 71)
  else if (48 <=? n) && (n <=? 57) then Some (n + 4)
  else if (n =? 43) || (n =? 45) then Some 62
  else if (n =? 47) || (n =? 95) then Some 63
  else None)%N.

Definition flush_group (group : list N) : t :=
  match group with
  | [a; b] => [byte_of_N (a * 4 + b / 16)]
  | [a; b; c] => [byte_of_N (a * 4 + b / 16); byte_of_N ((b mod 16) * 16 + c / 4)]
  | _ => []
  end%N.

Fixpoint from_base64_go (s : string) (group : list N) : t :=
  match s with
  | EmptyString => flush_group group
  | String c s' =>
      if Ascii.eqb c "="%char then flush_group group
      else
        match unbase64 c with
        | None => from_base64_go s' group
        | Some d =>
            match group with
            | [a; b; c'] =>
                byte_of_N (a * 4 + b / 16)
                  :: byte_of_N ((b mod 16) * 16 + c' / 4)
                  :: byte_of_N ((c' mod 4) * 64 + d)
                  :: from_base64_go s' []
            | _ => from_base64_go s' (group ++ [d])%list
            end
        end
  end%N.

Definition from_base64 (s : string) : t := from_base64_go s [].

Definition concat (l : list t) : t := List.concat l.

End Buffer.

(** ** Exceptions *)

(** A JavaScript [Error] object, as far as the service looks at it: its
    [name] and its [message]. *)
Record JsError : Type := mkJsError { name : string; message : string }.

Inductive Result (A : Type) : Type :=
| Ok (a : A)
| Throw (e : JsError).
Arguments Ok {A} a.
Arguments Throw {A} e.

Definition bind {A B : Type} (r : Result A) (k : A -> Result B) : Result B :=
  match r with
  | Ok a => k a
  | Throw e => Throw e
  end.

(** [try { body } catch (e) { handler(e) }] *)
Definition catch {A : Type} (body : Result A) (handler : JsError -> Result A) : Result A :=
  match body with
  | Ok a => Ok a
  | Throw e => handler e
  end.

Notation "x <- e ;; k" := (bind e (fun x => k))
  (at level 61, e at next level, right associativity).
Notation "e ;;; k" := (bind e (fun _ => k))
  (at level 61, right associativity).

(** [throw new Error(message)] and the runtime's own error classes. *)
Definition Error (msg : string) : JsError := mkJsError "Error" msg.
Definition TypeError (msg : string) : JsError := mkJsError "TypeError" msg.
Definition RangeError (msg : string) : JsError := mkJsError "RangeError" msg.

(** ** JavaScript values and JSON *)

Module JS.

(** The values [JSON.parse] can return, and [undefined].  A number is kept as
    the text it was written with: the service never computes with one. *)
Inductive Value : Type :=
| Undefined
| Null
| Bool (b : bool)
| Number (lexeme : string)
| Str (s : string)
| Array (items : list Value)
| Object (props : list (string * Value)).

(** Own properties of an object built by [JSON.parse], in creation order and
    without repeated keys. *)
Fixpoint lookup (props : list (string * Value)) (k : string) : option Value :=
  match props with
  | [] => None
  | (k', v) :: rest => if k' =? k then Some v else lookup rest k
  end.

(** Defining a property: a key that is already there keeps its place and
    takes the new value. *)
Fixpoint define (props : list (string * Value)) (k : string) (v : Value)
  : list (string * Value) :=
  match props with
  | [] => [(k, v)]
  | (k', v') :: rest =>
      if k' =? k then (k', v) :: rest else (k', v') :: define rest k v
  end.

(** Number of UTF-16 code units of a string given by its UTF-8 bytes: one for
    every byte that starts a character, one more for every character outside
    the Basic Multilingual Plane (a lead byte [0xF0] or above). *)
Fixpoint utf16_length (s : string) : nat :=
  match s with
  | EmptyString => 0
  | String c rest =>
      let n := N_of_ascii c in
      (if ((n <? 128) || (192 <=? n))%N then 1 else 0)
      + (if (240 <=? n)%N then 1 else 0)
      + utf16_length rest
  end.

Definition decimal (n : nat) : string := NilEmpty.string_of_uint (Nat.to_uint n).

(** Own keys of an array or of a string: [length] and the indices below it. *)
Definition array_like_key (k : string) (len : nat) : bool :=
  (k =? "length") || existsb (fun i => decimal i =? k) (seq 0 len).

(** [Object.hasOwn(o, k)]: [ToObject(o)] throws on [null] and [undefined];
    a boolean or a number has no own property. *)
Definition hasOwn (o : Value) (k : string) : Result bool :=
  match o with
  | Undefined | Null => Throw (TypeError "Cannot convert undefined or null to object")
  | Bool _ | Number _ => Ok false
  | Str s => Ok (array_like_key k (utf16_length s))
  | Array items => Ok (array_like_key k (List.length items))
  | Object props => Ok (match lookup props k with Some _ => true | None => false end)
  end.

(** [o.k] for a key [k] that [o] inherits from no prototype (as [iv], [hmac]
    and [cipherText], the keys the service reads): the own property of an
    object, [undefined] otherwise. *)
Definition get (o : Value) (k : string) : Value :=
  match o with
  | Object props => match lookup props k with Some v => v | None => Undefined end
  | _ => Undefined
  end.

(** [s !== v] for a string [s]: a value of another type is never equal. *)
Definition string_strict_neq (s : string) (v : Value) : bool :=
  match v with
  | Str s' => negb (s =? s')
  | _ => true
  end.

End JS.

(** ** JSON *)

Module JSON.
Import JS.

Definition dquote : ascii := "034"%char.
Definition backslash : ascii := "\"%char.

Definition is_ws (c : ascii) : bool :=
  let n := N_of_ascii c in ((n =? 32) || (n =? 9) || (n =? 10) || (n =? 13))%N.

Fixpoint skip_ws (s : string) : string :=
  match s with
  | String c rest => if is_ws c then skip_ws rest else s
  | EmptyString => s
  end.

Definition is_digit (c : ascii) : bool :=
  let n := N_of_ascii c in ((48 <=? n) && (n <=? 57))%N.

Definition hex_val (c : ascii) : option N :=
  let n := N_of_ascii c in
  (if (48 <=? n) && (n <=? 57) then Some (n - 48)
   else if (65 <=? n) && (n <=? 70) then Some (n - 55)
   else if (97 <=? n) && (n <=? 102) then Some (n - 87)
   else None)%N.

Definition hex4 (a b c d : ascii) : option N :=
  match hex_val a, hex_val b, hex_val c, hex_val d with
  | Some a, Some b, Some c, Some d => Some (a * 4096 + b * 256 + c * 16 + d)%N
  | _, _, _, _ => None
  end.

Definition chr (n : N) : ascii := ascii_of_N n.

(** UTF-8 bytes of a code point (a surrogate that stands alone is written in
    the same three-byte form). *)
Definition utf8 (n : N) : string :=
  (if n <? 128 then String (chr n) EmptyString
   else if n <? 2048 then
     String (chr (192 + n / 64)) (String (chr (128 + n mod 64)) EmptyString)
   else if n <? 65536 then
     String (chr (224 + n / 4096))
       (String (chr (128 + (n / 64) mod 64)) (String (chr (128 + n mod 64)) EmptyString))
   else
     String (chr (240 + n / 262144))
       (String (chr (128 + (n / 4096) mod 64))
          (String (chr (128 + (n / 64) mod 64)) (String (chr (128 + n mod 64)) EmptyString))))%N.

Definition is_high_surrogate (n : N) : bool := ((55296 <=? n) && (n <=? 56319))%N.
Definition is_low_surrogate (n : N) : bool := ((56320 <=? n) && (n <=? 57343))%N.

Definition flush (pending : option N) : string :=
  match pending with
  | Some hi => utf8 hi
  | None => EmptyString
  end.

Definition prepend (pre : string) (r : option (string * string)) : option (string * string) :=
  match r with
  | Some (str, rest) => Some (pre ++ str, rest)
  | None => None
  end.

Definition simple_escape (e : ascii) : option ascii :=
  let n := N_of_ascii e in
  (if n =? 34 then Some dquote
   else if n =? 92 then Some backslash
   else if n =? 47 then Some "/"%char
   else if n =? 98 then Some (chr 8)
   else if n =? 102 then Some (chr 12)
   else if n =? 110 then Some (chr 10)
   else if n =? 114 then Some (chr 13)
   else if n =? 116 then Some (chr 9)
   else None)%N.

(** The characters of a string literal after its opening quote, up to and
    including the closing quote: the string denoted and the text that follows.
    [pending] is a high surrogate written as an escape just before, waiting
    for its low half. *)
Fixpoint parse_string_chars (pending : option N) (s : string) : option (string * string) :=
  match s with
  | EmptyString => None
  | String c rest =>
      if Ascii.eqb c dquote then Some (flush pending, rest)
      else if Ascii.eqb c backslash then
        match rest with
        | EmptyString => None
        | String e rest1 =>
            match simple_escape e with
            | Some ch =>
                prepend (flush pending ++ String ch EmptyString) (parse_string_chars None rest1)
            | None =>
                if Ascii.eqb e "u"%char then
                  match rest1 with
                  | String h1 (String h2 (String h3 (String h4 rest2))) =>
                      match hex4 h1 h2 h3 h4 with
                      | None => None
                      | Some code =>
                          if is_high_surrogate code then
                            prepend (flush pending) (parse_string_chars (Some code) rest2)
                          else if is_low_surrogate code then
                            match pending with
                            | Some hi =>
                                prepend
                                  (utf8 (65536 + (hi - 55296) * 1024 + (code - 56320))%N)
                                  (parse_string_chars None rest2)
                            | None => prepend (utf8 code) (parse_string_chars None rest2)
                            end
                          else prepend (flush pending ++ utf8 code) (parse_string_chars None rest2)
                      end
                  | _ => None
                  end
                else None
            end
        end
      else if (N_of_ascii c <? 32)%N then None
      else prepend (flush pending ++ String c EmptyString) (parse_string_chars None rest)
  end.

(** The longest prefix of decimal digits, and the rest. *)
Fixpoint digits (s : string) : string * string :=
  match s with
  | String c rest =>
      if is_digit c then let (ds, r) := digits rest in (String c ds, r)
      else (EmptyString, s)
  | EmptyString => (EmptyString, s)
  end.

Definition parse_exponent (s : string) : option (string * string) :=
  match s with
  | String c rest =>
      if Ascii.eqb c "e"%char || Ascii.eqb c "E"%char then
        let (sign, rest1) :=
          match rest with
          | String g r =>
              if Ascii.eqb g "+"%char || Ascii.eqb g "-"%char
              then (String g EmptyString, r) else (EmptyString, rest)
          | EmptyString => (EmptyString, rest)
          end in
        let (ds, rest2) := digits rest1 in
        match ds with
        | EmptyString => None
        | _ => Some (String c (sign ++ ds), rest2)
        end
      else Some (EmptyString, s)
  | EmptyString => Some (EmptyString, s)
  end.

Definition parse_fraction (s : string) : option (string * string) :=
  match s with
  | String c rest =>
      if Ascii.eqb c "."%char then
        let (ds, rest1) := digits rest in
        match ds with
        | EmptyString => None
        | _ => Some (String c ds, rest1)
        end
      else Some (EmptyString, s)
  | EmptyString => Some (EmptyString, s)
  end.

(** A number without its sign: its text and the text that follows. *)
Definition parse_unsigned (s : string) : option (string * string) :=
  match s with
  | EmptyString => None
  | String c rest =>
      if is_digit c then
        let (int, rest1) :=
          if Ascii.eqb c "0"%char then (String c EmptyString, rest)
          else let (ds, r) := digits rest in (String c ds, r) in
        match parse_fraction rest1 with
        | None => None
        | Some (frac, rest2) =>
            match parse_exponent rest2 with
            | None => None
            | Some (exp, rest3) => Some (int ++ frac ++ exp, rest3)
            end
        end
      else None
  end.

(** A number: its text and the text that follows. *)
Definition parse_number (s : string) : option (string * string) :=
  match s with
  | EmptyString => None
  | String c rest =>
      if Ascii.eqb c "-"%char then prepend "-" (parse_unsigned rest) else parse_unsigned s
  end.

(** [s] without the prefix [p], when it starts with it. *)
Fixpoint strip_prefix (p s : string) : option string :=
  match p, s with
  | EmptyString, _ => Some s
  | String a p', String b s' => if Ascii.eqb a b then strip_prefix p' s' else None
  | String _ _, EmptyString => None
  end.

(** [true], [false], [null] or a number at the head of [s]. *)
Definition parse_literal (s : string) : option (Value * string) :=
  match strip_prefix "true" s with
  | Some rest => Some (Bool true, rest)
  | None =>
      match strip_prefix "false" s with
      | Some rest => Some (Bool false, rest)
      | None =>
          match strip_prefix "null" s with
          | Some rest => Some (Null, rest)
          | None =>
              match parse_number s with
              | Some (lexeme, rest) => Some (Number lexeme, rest)
              | None => None
              end
          end
      end
  end.

(** A value at the head of [s] (no leading white space), and the text that
    follows it; [parse_elements] and [parse_members] read the rest of an
    array or of an object from the head of an element or of a key.  Every
    call that goes one level down has read at least one character, so
    [fuel] above the length of the text is never used up
    ([JSONFuel.parse_fuel_enough] below). *)
Fixpoint parse_value (fuel : nat) (s : string) {struct fuel} : option (Value * string) :=
  match fuel with
  | O => None
  | S fuel' =>
      match s with
      | EmptyString => None
      | String c rest =>
          if Ascii.eqb c "{"%char then
            match skip_ws rest with
            | String c1 rest1 =>
                if Ascii.eqb c1 "}"%char then Some (Object [], rest1)
                else parse_members fuel' (String c1 rest1) []
            | EmptyString => None
            end
          else if Ascii.eqb c "["%char then
            match skip_ws rest with
            | String c1 rest1 =>
                if Ascii.eqb c1 "]"%char then Some (Array [], rest1)
                else parse_elements fuel' (String c1 rest1) []
            | EmptyString => None
            end
          else if Ascii.eqb c dquote then
            match parse_string_chars None rest with
            | Some (str, rest1) => Some (Str str, rest1)
            | None => None
            end
          else parse_literal s
      end
  end
with parse_elements (fuel : nat) (s : string) (acc : list Value) {struct fuel}
  : option (Value * string) :=
  match fuel with
  | O => None
  | S fuel' =>
      match parse_value fuel' s with
      | None => None
      | Some (v, rest) =>
          match skip_ws rest with
          | String c rest1 =>
              if Ascii.eqb c ","%char then parse_elements fuel' (skip_ws rest1) (acc ++ [v])%list
              else if Ascii.eqb c "]"%char then Some (Array (acc ++ [v])%list, rest1)
              else None
          | EmptyString => None
          end
      end
  end
with parse_members (fuel : nat) (s : string) (acc : list (string * Value)) {struct fuel}
  : option (Value * string) :=
  match fuel with
  | O => None
  | S fuel' =>
      match s with
      | EmptyString => None
      | String q rest =>
          if Ascii.eqb q dquote then
            match parse_string_chars None rest with
            | None => None
            | Some (k, rest1) =>
                match skip_ws rest1 with
                | String c rest2 =>
                    if Ascii.eqb c ":"%char then
                      match parse_value fuel' (skip_ws rest2) with
                      | None => None
                      | Some (v, rest3) =>
                          match skip_ws rest3 with
                          | String d rest4 =>
                              if Ascii.eqb d ","%char
                              then parse_members fuel' (skip_ws rest4) (define acc k v)
                              else if Ascii.eqb d "}"%char
                              then Some (Object (define acc k v), rest4)
                              else None
                          | EmptyString => None
                          end
                      end
                    else None
                | EmptyString => None
                end
            end
          else None
      end
  end.

(** [JSON.parse(text)]; [None] when it throws its [SyntaxError] (the service
    replaces that error by one of its own and never reads it). *)
Definition parse (text : string) : option Value :=
  match parse_value (2 * String.length text + 2) (skip_ws text) with
  | Some (v, rest) =>
      match skip_ws rest with
      | EmptyString => Some v
      | String _ _ => None
      end
  | None => None
  end.

Definition hex_digit (n : N) : ascii :=
  (if n <? 10 then chr (48 + n) else chr (87 + n))%N.

(** The text [JSON.stringify] writes for one character of a string. *)
Definition escape_char (c : ascii) : string :=
  let n := N_of_ascii c in
  (if n =? 34 then String backslash (String dquote EmptyString)
   else if n =? 92 then String backslash (String backslash EmptyString)
   else if n =? 8 then String backslash "b"
   else if n =? 12 then String backslash "f"
   else if n =? 10 then String backslash "n"
   else if n =? 13 then String backslash "r"
   else if n =? 9 then String backslash "t"
   else if n <? 32 then
     String backslash
       (String "u" (String "0" (String "0"
          (String (hex_digit (n / 16)) (String (hex_digit (n mod 16)) EmptyString)))))
   else String c EmptyString)%N.

Fixpoint escape (s : string) : string :=
  match s with
  | EmptyString => EmptyString
  | String c rest => escape_char c ++ escape rest
  end.

Definition quote (s : string) : string :=
  String dquote (escape s ++ String dquote EmptyString).

Fixpoint stringify_members (props : list (string * string)) : string :=
  match props with
  | [] => EmptyString
  | [(k, v)] => quote k ++ ":" ++ quote v
  | (k, v) :: rest => quote k ++ ":" ++ quote v ++ "," ++ stringify_members rest
  end.

(** [JSON.stringify(o)] for an object [o] whose own properties, in creation
    order, are [props], each holding a string. *)
Definition stringify_record (props : list (string * string)) : string :=
  "{" ++ stringify_members props ++ "}".

End JSON.

(** ** node:crypto

    The primitives the service calls, as Node.js computes them: SHA-256
    (FIPS 180-4) and HMAC (FIPS 198-1) behind [createHmac], AES (FIPS 197) in
    CBC mode with PKCS#7 padding and in the counter mode of GCM behind
    [createCipheriv] and [createDecipheriv], [timingSafeEqual] and
    [randomBytes].  Error texts are those of Node.js 18 and later
    (OpenSSL 3). *)

Module NodeCrypto.

Definition byte_of_N := Buffer.byte_of_N.

(** *** SHA-256 *)

Definition w32 (n : N) : N := n mod 4294967296.
Definition add32 (a b : N) : N := w32 (a + b).
Definition rotr (k x : N) : N := N.lor (N.shiftr x k) (w32 (N.shiftl x (32 - k))).
Definition shr (k x : N) : N := N.shiftr x k.
Definition not32 (x : N) : N := N.lxor x 4294967295.

Definition Ch (x y z : N) : N := N.lxor (N.land x y) (N.land (not32 x) z).
Definition Maj (x y z : N) : N := N.lxor (N.lxor (N.land x y) (N.land x z)) (N.land y z).
Definition Sigma0 (x : N) : N := N.lxor (N.lxor (rotr 2 x) (rotr 13 x)) (rotr 22 x).
Definition Sigma1 (x : N) : N := N.lxor (N.lxor (rotr 6 x) (rotr 11 x)) (rotr 25 x).
Definition sigma0 (x : N) : N := N.lxor (N.lxor (rotr 7 x) (rotr 18 x)) (shr 3 x).
Definition sigma1 (x : N) : N := N.lxor (N.lxor (rotr 17 x) (rotr 19 x)) (shr 10 x).

Definition K256 : list N :=
  [ 1116352408; 1899447441; 3049323471; 3921009573; 961987163; 1508970993; 2453635748; 2870763221;
    3624381080; 310598401; 607225278; 1426881987; 1925078388; 2162078206; 2614888103; 3248222580;
    3835390401; 4022224774; 264347078; 604807628; 770255983; 1249150122; 1555081692; 1996064986;
    2554220882; 2821834349; 2952996808; 3210313671; 3336571891; 3584528711; 113926993; 338241895;
    666307205; 773529912; 1294757372; 1396182291; 1695183700; 1986661051; 2177026350; 2456956037;
    2730485921; 2820302411; 3259730800; 3345764771; 3516065817; 3600352804; 4094571909; 275423344;
    430227734; 506948616; 659060556; 883997877; 958139571; 1322822218; 1537002063; 1747873779;
    1955562222; 2024104815; 2227730452; 2361852424; 2428436474; 2756734187; 3204031479; 3329325298 ]%N.

Record Hash : Type :=
  mkHash { ha : N; hb : N; hc : N; hd : N; he : N; hf : N; hg : N; hh : N }.

Definition H256 : Hash :=
  mkHash 1779033703 3144134277 1013904242 2773480762 1359893119 2600822924 528734635 1541459225.

Definition be32 (b0 b1 b2 b3 : byte) : N :=
  (Byte.to_N b0 * 16777216 + Byte.to_N b1 * 65536 + Byte.to_N b2 * 256 + Byte.to_N b3)%N.

Definition be32_bytes (w : N) : list byte :=
  [byte_of_N (w / 16777216); byte_of_N (w / 65536); byte_of_N (w / 256); byte_of_N w].

Fixpoint words (b : list byte) : list N :=
  match b with
  | b0 :: b1 :: b2 :: b3 :: rest => be32 b0 b1 b2 b3 :: words rest
  | _ => []
  end.

(** The message schedule, latest word first: sixteen words of the block,
    then [n] more. *)
Fixpoint schedule (n : nat) (ws : list N) : list N :=
  match n with
  | O => ws
  | S n' =>
      let w := add32 (add32 (sigma1 (nth 1 ws 0%N)) (nth 6 ws 0%N))
                     (add32 (sigma0 (nth 14 ws 0%N)) (nth 15 ws 0%N)) in
      schedule n' (w :: ws)
  end.

Definition round (s : Hash) (kw : N * N) : Hash :=
  let t1 := add32 (add32 (add32 (hh s) (Sigma1 (he s))) (Ch (he s) (hf s) (hg s)))
                  (add32 (fst kw) (snd kw)) in
  let t2 := add32 (Sigma0 (ha s)) (Maj (ha s) (hb s) (hc s)) in
  mkHash (add32 t1 t2) (ha s) (hb s) (hc s) (add32 (hd s) t1) (he s) (hf s) (hg s).

Definition compress (h : Hash) (block : list byte) : Hash :=
  let w := rev (schedule 48 (rev (words block))) in
  let s := fold_left round (combine K256 w) h in
  mkHash (add32 (ha h) (ha s)) (add32 (hb h) (hb s)) (add32 (hc h) (hc s)) (add32 (hd h) (hd s))
         (add32 (he h) (he s)) (add32 (hf h) (hf s)) (add32 (hg h) (hg s)) (add32 (hh h) (hh s)).

(** [l] cut into pieces of [n] elements (the last one may be shorter). *)
Fixpoint chunks_go {A : Type} (fuel n : nat) (l : list A) : list (list A) :=
  match fuel, l with
  | _, [] => []
  | O, _ => []
  | S fuel', _ => firstn n l :: chunks_go fuel' n (skipn n l)
  end.
Definition chunks {A : Type} (n : nat) (l : list A) : list (list A) :=
  chunks_go (List.length l) n l.

Definition sha256_pad (msg : list byte) : list byte :=
  let len := List.length msg in
  let bits := (N.of_nat len * 8)%N in
  (msg ++ x80 :: repeat x00 ((64 - (len + 9) mod 64) mod 64)
       ++ be32_bytes (bits / 4294967296) ++ be32_bytes bits)%list.

Definition sha256 (msg : list byte) : list byte :=
  let h := fold_left compress (chunks 64 (sha256_pad msg)) H256 in
  (be32_bytes (ha h) ++ be32_bytes (hb h) ++ be32_bytes (hc h) ++ be32_bytes (hd h)
   ++ be32_bytes (he h) ++ be32_bytes (hf h) ++ be32_bytes (hg h) ++ be32_bytes (hh h))%list.

(** *** HMAC-SHA256 and the [Hmac] object *)

(** A byte as its eight bits, lowest first, and the exclusive or of two bytes. *)
Definition bits : Type := bool * (bool * (bool * (bool * (bool * (bool * (bool * bool)))))).

Definition bits_xor (a b : bits) : bits :=
  let '(a0, (a1, (a2, (a3, (a4, (a5, (a6, a7))))))) := a in
  let '(b0, (b1, (b2, (b3, (b4, (b5, (b6, b7))))))) := b in
  (xorb a0 b0, (xorb a1 b1, (xorb a2 b2, (xorb a3 b3,
     (xorb a4 b4, (xorb a5 b5, (xorb a6 b6, xorb a7 b7))))))).

Definition bxor (a b : byte) : byte :=
  Byte.of_bits (bits_xor (Byte.to_bits a) (Byte.to_bits b)).

Definition hmac_sha256 (key msg : list byte) : list byte :=
  let k := if (64 <? List.length key)%nat then sha256 key else key in
  let k := (k ++ repeat x00 (64 - List.length k))%list in
  sha256 (map (bxor x5c) k ++ sha256 (map (bxor x36) k ++ msg))%list.

(** An [Hmac] object: its key and the data it has been fed so far. *)
Record Hmac : Type := mkHmac { hmac_key : list byte; hmac_data : list byte }.

(** [createHmac("sha256", key)] *)
Definition createHmac_sha256 (key : list byte) : Hmac := mkHmac key [].
(** [h.update(data)] *)
Definition update (h : Hmac) (data : list byte) : Hmac :=
  mkHmac (hmac_key h) (hmac_data h ++ data)%list.
(** [h.digest()] *)
Definition digest (h : Hmac) : list byte := hmac_sha256 (hmac_key h) (hmac_data h).

(** *** AES

    Bytes are elements of GF(2^8) modulo x^8 + x^4 + x^3 + x + 1. *)

(** Multiplication by x: a shift, and x^4 + x^3 + x + 1 added when x^8
    appears. *)
Definition bits_xtime (a : bits) : bits :=
  let '(a0, (a1, (a2, (a3, (a4, (a5, (a6, a7))))))) := a in
  (a7, (xorb a0 a7, (a1, (xorb a2 a7, (xorb a3 a7, (a4, (a5, a6))))))).

Definition xtime (a : byte) : byte := Byte.of_bits (bits_xtime (Byte.to_bits a)).

Fixpoint gmul_go (k : nat) (a : byte) (b : N) : byte :=
  match k with
  | O => x00
  | S k' => bxor (if N.odd b then a else x00) (gmul_go k' (xtime a) (N.div2 b))
  end.
Definition gmul (a b : byte) : byte := gmul_go 8 a (Byte.to_N b).

Definition all_bytes : list byte := map (fun n => byte_of_N (N.of_nat n)) (seq 0 256).

(** The S-box: the multiplicative inverse (a^254, with 0 for 0) followed by
    the affine transformation. *)
Definition ginv (a : byte) : byte :=
  let a2 := gmul a a in
  let a4 := gmul a2 a2 in
  let a8 := gmul a4 a4 in
  let a16 := gmul a8 a8 in
  let a32 := gmul a16 a16 in
  let a64 := gmul a32 a32 in
  let a128 := gmul a64 a64 in
  gmul a128 (gmul a64 (gmul a32 (gmul a16 (gmul a8 (gmul a4 a2))))).

Definition rotl8 (k : N) (b : byte) : byte :=
  let n := Byte.to_N b in byte_of_N (N.lor (N.shiftl n k) (N.shiftr n (8 - k))).

Definition affine (b : byte) : byte :=
  bxor (bxor (bxor (bxor (bxor b (rotl8 1 b)) (rotl8 2 b)) (rotl8 3 b)) (rotl8 4 b)) x63.

Definition sbox_table : list byte :=
  Eval vm_compute in map (fun a => affine (ginv a)) all_bytes.

Definition index_of (y : byte) (l : list byte) : nat :=
  (fix go (l : list byte) (i : nat) : nat :=
     match l with
     | [] => 0
     | x :: rest => if Byte.eqb x y then i else go rest (S i)
     end) l 0.

Definition inv_sbox_table : list byte :=
  Eval vm_compute in map (fun y => byte_of_N (N.of_nat (index_of y sbox_table))) all_bytes.

Definition sbox (a : byte) : byte := nth (N.to_nat (Byte.to_N a)) sbox_table x00.
Definition inv_sbox (a : byte) : byte := nth (N.to_nat (Byte.to_N a)) inv_sbox_table x00.

(** A word is a column of four bytes; the state is four columns. *)
Definition word : Type := byte * byte * byte * byte.
Definition state : Type := word * word * word * word.

Definition wmap (f : byte -> byte) (w : word) : word :=
  let '(a, b, c, d) := w in (f a, f b, f c, f d).
Definition wxor (v w : word) : word :=
  let '(a, b, c, d) := v in let '(a', b', c', d') := w in
  (bxor a a', bxor b b', bxor c c', bxor d d').

Definition smap (f : word -> word) (s : state) : state :=
  let '(a, b, c, d) := s in (f a, f b, f c, f d).

Definition SubBytes (s : state) : state := smap (wmap sbox) s.
Definition InvSubBytes (s : state) : state := smap (wmap inv_sbox) s.

Definition ShiftRows (s : state) : state :=
  let '((a0, a1, a2, a3), (b0, b1, b2, b3), (c0, c1, c2, c3), (d0, d1, d2, d3)) := s in
  ((a0, b1, c2, d3), (b0, c1, d2, a3), (c0, d1, a2, b3), (d0, a1, b2, c3)).
Definition InvShiftRows (s : state) : state :=
  let '((a0, a1, a2, a3), (b0, b1, b2, b3), (c0, c1, c2, c3), (d0, d1, d2, d3)) := s in
  ((a0, d1, c2, b3), (b0, a1, d2, c3), (c0, b1, a2, d3), (d0, c1, b2, a3)).

Definition mul2 (a : byte) : byte := xtime a.
Definition mul3 (a : byte) : byte := bxor (xtime a) a.
Definition mul9 (a : byte) : byte := bxor (xtime (xtime (xtime a))) a.
Definition mul11 (a : byte) : byte := bxor (bxor (xtime (xtime (xtime a))) (xtime a)) a.
Definition mul13 (a : byte) : byte := bxor (bxor (xtime (xtime (xtime a))) (xtime (xtime a))) a.
Definition mul14 (a : byte) : byte :=
  bxor (bxor (xtime (xtime (xtime a))) (xtime (xtime a))) (xtime a).

Definition xor4 (a b c d : byte) : byte := bxor (bxor (bxor a b) c) d.

Definition MixColumn (w : word) : word :=
  let '(a, b, c, d) := w in
  (xor4 (mul2 a) (mul3 b) c d,
   xor4 a (mul2 b) (mul3 c) d,
   xor4 a b (mul2 c) (mul3 d),
   xor4 (mul3 a) b c (mul2 d)).
Definition InvMixColumn (w : word) : word :=
  let '(a, b, c, d) := w in
  (xor4 (mul14 a) (mul11 b) (mul13 c) (mul9 d),
   xor4 (mul9 a) (mul14 b) (mul11 c) (mul13 d),
   xor4 (mul13 a) (mul9 b) (mul14 c) (mul11 d),
   xor4 (mul11 a) (mul13 b) (mul9 c) (mul14 d)).
Definition MixColumns (s : state) : state := smap MixColumn s.
Definition InvMixColumns (s : state) : state := smap InvMixColumn s.

Definition AddRoundKey (k s : state) : state :=
  let '(a, b, c, d) := s in let '(ka, kb, kc, kd) := k in
  (wxor a ka, wxor b kb, wxor c kc, wxor d kd).

(** Key expansion. *)
Definition zero_word : word := (x00, x00, x00, x00).
Definition RotWord (w : word) : word := let '(a, b, c, d) := w in (b, c, d, a).
Definition SubWord (w : word) : word := wmap sbox w.
Definition Rcon (j : nat) : word := (Nat.iter (j - 1) xtime x01, x00, x00, x00).

Fixpoint key_words (key : list byte) : list word :=
  match key with
  | a :: b :: c :: d :: rest => (a, b, c, d) :: key_words rest
  | _ => []
  end.

Fixpoint expand (steps i Nk : nat) (ws : list word) : list word :=
  match steps with
  | O => ws
  | S steps' =>
      let temp := nth (i - 1) ws zero_word in
      let temp :=
        if (i mod Nk =? 0)%nat then wxor (SubWord (RotWord temp)) (Rcon (i / Nk))
        else if ((6 <? Nk) && (i mod Nk =? 4))%nat then SubWord temp
        else temp in
      expand steps' (S i) Nk (ws ++ [wxor (nth (i - Nk) ws zero_word) temp])%list
  end.

Fixpoint round_keys (ws : list word) : list state :=
  match ws with
  | a :: b :: c :: d :: rest => (a, b, c, d) :: round_keys rest
  | _ => []
  end.

(** The round keys of a key of 16 or 32 bytes: 11 or 15 of them. *)
Definition KeyExpansion (key : list byte) : list state :=
  let Nk := List.length key / 4 in
  round_keys (expand (4 * (Nk + 7) - Nk) Nk Nk (key_words key)).

Definition zero_state : state := (zero_word, zero_word, zero_word, zero_word).

Fixpoint rounds (ks : list state) (s : state) : state :=
  match ks with
  | [] => s
  | [k] => AddRoundKey k (ShiftRows (SubBytes s))
  | k :: rest => rounds rest (AddRoundKey k (MixColumns (ShiftRows (SubBytes s))))
  end.

Definition Cipher (ks : list state) (s : state) : state :=
  match ks with
  | [] => s
  | k0 :: rest => rounds rest (AddRoundKey k0 s)
  end.

(** The inverse cipher takes the round keys last first. *)
Fixpoint inv_rounds (ks : list state) (s : state) : state :=
  match ks with
  | [] => s
  | [k] => AddRoundKey k (InvSubBytes (InvShiftRows s))
  | k :: rest => inv_rounds rest (InvMixColumns (AddRoundKey k (InvSubBytes (InvShiftRows s))))
  end.

Definition InvCipher (ks : list state) (s : state) : state :=
  match rev ks with
  | [] => s
  | k :: rest => inv_rounds rest (AddRoundKey k s)
  end.

(** A block of 16 bytes as a state, column by column, and back. *)
Definition state_of_block (b : list byte) : state :=
  let g := fun i => nth i b x00 in
  ((g 0, g 1, g 2, g 3), (g 4, g 5, g 6, g 7), (g 8, g 9, g 10, g 11), (g 12, g 13, g 14, g 15)).
Definition block_of_state (s : state) : list byte :=
  let '((a0, a1, a2, a3), (b0, b1, b2, b3), (c0, c1, c2, c3), (d0, d1, d2, d3)) := s in
  [a0; a1; a2; a3; b0; b1; b2; b3; c0; c1; c2; c3; d0; d1; d2; d3].

Definition encrypt_block (ks : list state) (b : list byte) : list byte :=
  block_of_state (Cipher ks (state_of_block b)).
Definition decrypt_block (ks : list state) (b : list byte) : list byte :=
  block_of_state (InvCipher ks (state_of_block b)).

(** *** CBC with PKCS#7 padding *)

Definition xor_bytes (a b : list byte) : list byte :=
  map (fun p => bxor (fst p) (snd p)) (combine a b).

Definition pkcs7_pad (data : list byte) : list byte :=
  let n := 16 - List.length data mod 16 in
  (data ++ repeat (byte_of_N (N.of_nat n)) n)%list.

(** The data without its padding, when the last byte [n] is between 1 and 16
    and the last [n] bytes all are [n]. *)
Definition pkcs7_unpad (data : list byte) : option (list byte) :=
  let n := N.to_nat (Byte.to_N (last data x00)) in
  let len := List.length data in
  if ((1 <=? n) && (n <=? 16) && (n <=? len))%nat
     && Buffer.eqb (skipn (len - n) data) (repeat (last data x00) n)
  then Some (firstn (len - n) data)
  else None.

Fixpoint cbc_encrypt_blocks (ks : list state) (prev : list byte) (blocks : list (list byte))
  : list byte :=
  match blocks with
  | [] => []
  | b :: rest =>
      let c := encrypt_block ks (xor_bytes b prev) in
      (c ++ cbc_encrypt_blocks ks c rest)%list
  end.

Fixpoint cbc_decrypt_blocks (ks : list state) (prev : list byte) (blocks : list (list byte))
  : list byte :=
  match blocks with
  | [] => []
  | c :: rest => (xor_bytes (decrypt_block ks c) prev ++ cbc_decrypt_blocks ks c rest)%list
  end.

Definition cbc_encrypt (key iv data : list byte) : list byte :=
  cbc_encrypt_blocks (KeyExpansion key) iv (chunks 16 (pkcs7_pad data)).

(** *** The counter mode of GCM, for an IV of 12 bytes: block [i] of the key
    stream is the encryption of the IV followed by the counter [i + 2]. *)
Fixpoint ctr_blocks (ks : list state) (iv : list byte) (ctr : N) (blocks : list (list byte))
  : list byte :=
  match blocks with
  | [] => []
  | b :: rest =>
      (xor_bytes b (encrypt_block ks (iv ++ be32_bytes ctr))
         ++ ctr_blocks ks iv (ctr + 1) rest)%list
  end.

Definition gcm_encrypt (key iv data : list byte) : list byte :=
  ctr_blocks (KeyExpansion key) iv 2 (chunks 16 data).

(** *** [createCipheriv] and [createDecipheriv] *)

Inductive Algorithm : Type :=
| aes_cbc (key_bytes : nat)
| aes_gcm (key_bytes : nat).

(** The value of
    [Buffer.concat([c.update(data), c.final()])] for
    [c = createCipheriv(algorithm, key, iv)].
    For GCM the tag is left inside the cipher object (the service never asks
    for it) and the IV is taken to be of 12 bytes, the only length the
    service passes: Node derives the counter of another length by GHASH,
    which this model leaves out. *)
Definition createCipheriv_update_final (alg : Algorithm) (key iv data : list byte)
  : Result (list byte) :=
  match alg with
  | aes_cbc n =>
      if negb (List.length key =? n)%nat then Throw (RangeError "Invalid key length")
      else if negb (List.length iv =? 16)%nat then Throw (TypeError "Invalid initialization vector")
      else Ok (cbc_encrypt key iv data)
  | aes_gcm n =>
      if negb (List.length key =? n)%nat then Throw (RangeError "Invalid key length")
      else if negb (List.length iv =? 12)%nat then Throw (TypeError "Invalid initialization vector")
      else Ok (gcm_encrypt key iv data)
  end.

(** The value of
    [Buffer.concat([d.update(data), d.final()])] for
    [d = createDecipheriv(algorithm, key, iv)].
    In CBC mode [final] fails on data that is empty or no whole number of
    blocks, and on a wrong padding.  In GCM mode [final] checks the
    authentication tag, and fails when none was set with [setAuthTag]. *)
Definition createDecipheriv_update_final (alg : Algorithm) (key iv data : list byte)
  : Result (list byte) :=
  match alg with
  | aes_cbc n =>
      if negb (List.length key =? n)%nat then Throw (RangeError "Invalid key length")
      else if negb (List.length iv =? 16)%nat then Throw (TypeError "Invalid initialization vector")
      else if (List.length data =? 0)%nat || negb (List.length data mod 16 =? 0)%nat
      then Throw (Error "error:1C80006B:Provider routines::wrong final block length")
      else
        match pkcs7_unpad (cbc_decrypt_blocks (KeyExpansion key) iv (chunks 16 data)) with
        | Some plain => Ok plain
        | None => Throw (Error "error:1C800064:Provider routines::bad decrypt")
        end
  | aes_gcm n =>
      if negb (List.length key =? n)%nat then Throw (RangeError "Invalid key length")
      else if (List.length iv =? 0)%nat then Throw (TypeError "Invalid initialization vector")
      else Throw (Error "Unsupported state or unable to authenticate data")
  end.

(** *** [timingSafeEqual(a, b)]: throws when the lengths differ. *)
Definition timingSafeEqual (a b : list byte) : Result bool :=
  if (List.length a =? List.length b)%nat then Ok (Buffer.eqb a b)
  else Throw (RangeError "Input buffers must have the same byte length").

(** *** [randomBytes(n)]

    The secure random source is a stream of bytes; a call takes the next [n]
    and leaves the rest. *)
Definition Entropy : Type := nat -> byte.

Definition randomBytes (n : nat) (rng : Entropy) : list byte * Entropy :=
  (map rng (seq 0 n), fun i => rng (n + i)).

End NodeCrypto.

(** ** [Buffer.from(value, "base64")] on a value that is no string

    The service declares the fields of a payload strings, and hands
    [Buffer.from] whatever [JSON.parse] found in them.  For a value that is
    not a string Node either throws a [TypeError] whose text prints the value,
    or copies the bytes of an array or of an array-like object.  Which of the
    two, and the text or the bytes, depend on number formatting and on the
    object's [length], [valueOf] and [data] properties; the model takes this
    outcome as given by the runtime and fixes nothing about it. *)
Class Runtime : Type := {
  Buffer_from_nonstring : JS.Value -> Result Buffer.t
}.

Definition Buffer_from_base64 {rt : Runtime} (value : JS.Value) : Result Buffer.t :=
  match value with
  | JS.Str s => Ok (Buffer.from_base64 s)
  | _ => Buffer_from_nonstring value
  end.

(** A runtime that throws on every value that is no string, as Node.js does
    for [null], [undefined], booleans, numbers and plain objects.  It is used
    where a concrete payload is run through the service. *)
Definition strings_only : Runtime := {|
  Buffer_from_nonstring := fun _ =>
    Throw (TypeError "The first argument must be of type string or an instance of Buffer, ArrayBuffer, or Array or an Array-like Object.")
|}.

(** ** [src/lib/encryption.ciphers.ts] *)

Inductive Cipher : Type :=
| AES_128_CBC
| AES_256_CBC
| AES_128_GCM
| AES_256_GCM.

Definition Cipher_value (c : Cipher) : string :=
  match c with
  | AES_128_CBC => "aes-128-cbc"
  | AES_256_CBC => "aes-256-cbc"
  | AES_128_GCM => "aes-128-gcm"
  | AES_256_GCM => "aes-256-gcm"
  end.

Record CipherInfo : Type := mkCipherInfo {
  keyLength : nat;
  ivLength : nat;
  blockLength : nat
}.

Definition ciphers (c : Cipher) : CipherInfo :=
  match c with
  | AES_128_CBC => {| keyLength := 16; ivLength := 16; blockLength := 16 |}
  | AES_256_CBC => {| keyLength := 32; ivLength := 16; blockLength := 16 |}
  | AES_128_GCM => {| keyLength := 16; ivLength := 12; blockLength := 16 |}
  | AES_256_GCM => {| keyLength := 32; ivLength := 12; blockLength := 16 |}
  end.

(** The algorithm Node.js runs for a cipher's name. *)
Definition algorithm (c : Cipher) : NodeCrypto.Algorithm :=
  match c with
  | AES_128_CBC => NodeCrypto.aes_cbc 16
  | AES_256_CBC => NodeCrypto.aes_cbc 32
  | AES_128_GCM => NodeCrypto.aes_gcm 16
  | AES_256_GCM => NodeCrypto.aes_gcm 32
  end.

(** ** [src/lib/encryption.errors.ts] *)

Definition UnableToInitialize (message : string) : JsError :=
  mkJsError "UnableToInitialize" ("Unable to initialize the encryption service: " ++ message).

Definition UnableToDecrypt (reason : string) : JsError :=
  mkJsError "UnableToDecrypt" ("Unable to decrypt the ciphertext: " ++ reason).

(** ** [src/lib/encryption.service.ts] *)

Module EncryptionModuleOptions.
Record t : Type := make { key : string; cipher : option Cipher }.
End EncryptionModuleOptions.

Module AEADPayload.
Record t (TFormat : Type) : Type := make { iv : TFormat; hmac : TFormat; cipherText : TFormat }.
Arguments make {TFormat} iv hmac cipherText.
Arguments iv {TFormat} _.
Arguments hmac {TFormat} _.
Arguments cipherText {TFormat} _.
End AEADPayload.

(** The two private read-only fields of the class. *)
Record EncryptionService : Type := mkEncryptionService {
  key : Buffer.t;
  cipher : Cipher
}.

Definition decodeKey (cipher : Cipher) (key : string) : Result Buffer.t :=
  let decodedKey := Buffer.from_base64 key in
  if negb (Buffer.toString_base64 decodedKey =? key) then
    Throw (Error "The key must be a valid base64-encoded string.")
  else if negb (List.length decodedKey =? keyLength (ciphers cipher))%nat then
    Throw (Error ("The decoded key must be " ++ JS.decimal (keyLength (ciphers cipher))
                  ++ " bytes long."))
  else Ok decodedKey.

(** [new EncryptionService(options)]: [this.cipher] is set first and
    [decodeKey] reads it; the object is returned only when the body
    completes. *)
Definition constructor (options : EncryptionModuleOptions.t) : Result EncryptionService :=
  catch
    (let cipher :=
       match EncryptionModuleOptions.cipher options with
       | Some c => c
       | None => AES_256_CBC
       end in
     key <- decodeKey cipher (EncryptionModuleOptions.key options) ;;
     Ok {| key := key; cipher := cipher |})
    (fun e => Throw (UnableToInitialize (message e))).

Definition generateKey (cipher : Cipher) (rng : NodeCrypto.Entropy)
  : string * NodeCrypto.Entropy :=
  let (bytes, rng') := NodeCrypto.randomBytes (keyLength (ciphers cipher)) rng in
  (Buffer.toString_base64 bytes, rng').

Definition generateIV (this : EncryptionService) (rng : NodeCrypto.Entropy)
  : Buffer.t * NodeCrypto.Entropy :=
  NodeCrypto.randomBytes (ivLength (ciphers (cipher this))) rng.

Definition computeHmac (this : EncryptionService) (cipherText iv : Buffer.t) : Buffer.t :=
  NodeCrypto.digest
    (NodeCrypto.update (NodeCrypto.update (NodeCrypto.createHmac_sha256 (key this)) cipherText) iv).

Definition verifyHmac (this : EncryptionService) (cipherText iv hmac : Buffer.t) : Result unit :=
  equal <- NodeCrypto.timingSafeEqual (computeHmac this cipherText iv) hmac ;;
  if negb equal then Throw (Error "The signature does not match the encrypted payload.")
  else Ok tt.

(** [encrypt] has no [try]: what a primitive throws leaves it as it is. *)
Definition encrypt (this : EncryptionService) (plaintext : string) (rng : NodeCrypto.Entropy)
  : Result string * NodeCrypto.Entropy :=
  let (iv, rng') := generateIV this rng in
  (cipherText <- NodeCrypto.createCipheriv_update_final
                   (algorithm (cipher this)) (key this) iv (Buffer.from_utf8 plaintext) ;;
   let hmac := computeHmac this cipherText iv in
   let aead :=
     AEADPayload.make (Buffer.toString_base64 iv) (Buffer.toString_base64 hmac)
       (Buffer.toString_base64 cipherText) in
   Ok (Buffer.toString_base64
         (Buffer.from_utf8
            (JSON.stringify_record
               [("iv", AEADPayload.iv aead); ("hmac", AEADPayload.hmac aead);
                ("cipherText", AEADPayload.cipherText aead)]))),
   rng').

(** The loop over [["iv", "cipherText", "hmac"]]. *)
Fixpoint check_fields (deserializedPkg : JS.Value) (fields : list string) : Result unit :=
  match fields with
  | [] => Ok tt
  | field :: rest =>
      present <- JS.hasOwn deserializedPkg field ;;
      if negb present then
        Throw (Error ("The AEAD payload is missing the " ++ field ++ " field."))
      else check_fields deserializedPkg rest
  end.

Section Decoding.
Context {rt : Runtime}.

Definition decodeIV (this : EncryptionService) (encodedIV : JS.Value) : Result Buffer.t :=
  iv <- Buffer_from_base64 encodedIV ;;
  if JS.string_strict_neq (Buffer.toString_base64 iv) encodedIV then
    Throw (Error "The IV is not a valid base64-encoded string.")
  else if negb (List.length iv =? ivLength (ciphers (cipher this)))%nat then
    Throw (Error ("The decoded IV is not the correct length. Expected "
                  ++ JS.decimal (ivLength (ciphers (cipher this)))
                  ++ " bytes, got " ++ JS.decimal (List.length iv) ++ " bytes."))
  else Ok iv.

Definition decodeHmac (encodedHmac : JS.Value) : Result Buffer.t :=
  hmac <- Buffer_from_base64 encodedHmac ;;
  if JS.string_strict_neq (Buffer.toString_base64 hmac) encodedHmac then
    Throw (Error "The HMAC is not a valid base64-encoded string.")
  else Ok hmac.

Definition decodeCipherText (this : EncryptionService) (encodedCipherText : JS.Value)
  : Result Buffer.t :=
  cipherText <- Buffer_from_base64 encodedCipherText ;;
  if JS.string_strict_neq (Buffer.toString_base64 cipherText) encodedCipherText then
    Throw (Error "The encoded ciphertext is not a valid base64-encoded string.")
  else if negb (List.length cipherText mod blockLength (ciphers (cipher this)) =? 0)%nat then
    Throw (Error "The length of the decoded ciphertext is not a multiple of the cipher's block length.")
  else Ok cipherText.

Definition decodeAEADPayload (this : EncryptionService) (encodedPayload : string)
  : Result (AEADPayload.t Buffer.t) :=
  let payload := Buffer.from_base64 encodedPayload in
  if negb (Buffer.toString_base64 payload =? encodedPayload) then
    Throw (Error "The encoded AEAD payload is not a valid base64-encoded string.")
  else
    deserializedPkg <-
      match JSON.parse (Buffer.toString payload) with
      | Some v => Ok v
      | None => Throw (Error "The decoded AEAD payload is not a valid JSON string.")
      end ;;
    check_fields deserializedPkg ["iv"; "cipherText"; "hmac"] ;;;
    iv <- decodeIV this (JS.get deserializedPkg "iv") ;;
    hmac <- decodeHmac (JS.get deserializedPkg "hmac") ;;
    cipherText <- decodeCipherText this (JS.get deserializedPkg "cipherText") ;;
    Ok (AEADPayload.make iv hmac cipherText).

Definition decrypt (this : EncryptionService) (encrypted : string) : Result string :=
  catch
    (aead <- decodeAEADPayload this encrypted ;;
     verifyHmac this (AEADPayload.cipherText aead) (AEADPayload.iv aead) (AEADPayload.hmac aead) ;;;
     decrypted <- NodeCrypto.createDecipheriv_update_final
                    (algorithm (cipher this)) (key this) (AEADPayload.iv aead)
                    (AEADPayload.cipherText aead) ;;
     Ok (Buffer.toString decrypted))
    (fun e => Throw (UnableToDecrypt (message e))).

(** *** An instance in use

    The object and the random source, and the calls made on the object.  No
    method assigns a field: a call leaves [self] as it found it. *)
Inductive Call : Type :=
| Encrypt (plaintext : string)
| Decrypt (encrypted : string).

Record World : Type := mkWorld { self : EncryptionService; entropy : NodeCrypto.Entropy }.

Definition perform (w : World) (c : Call) : Result string * World :=
  match c with
  | Encrypt plaintext =>
      let (r, rng') := encrypt (self w) plaintext (entropy w) in
      (r, {| self := self w; entropy := rng' |})
  | Decrypt encrypted => (decrypt (self w) encrypted, w)
  end.

Fixpoint run (w : World) (calls : list Call) : World :=
  match calls with
  | [] => w
  | c :: rest => run (snd (perform w c)) rest
  end.

End Decoding.

(** ** [src/cli/keygen.ts]

    The key generator of the command line, in the two forms the repository
    holds: one calls [randomBytes] itself and exits on a cipher it does not
    find; the other calls [EncryptionService.generateKey] and goes on after
    the warning.  Both read one option, [--cipher] (short [-c]), through
    [parseArgs], which hands in the text given for it, or the default. *)

(** [Object.keys(ciphers)]: the keys in the order the table is written in. *)
Definition Object_keys_ciphers : list string :=
  map Cipher_value [AES_128_CBC; AES_256_CBC; AES_128_GCM; AES_256_GCM].

(** The names every plain object inherits from [Object.prototype]; each
    holds a function or an object, none of which has a [keyLength]. *)
Definition Object_prototype_keys : list string :=
  ["constructor"; "__defineGetter__"; "__defineSetter__"; "hasOwnProperty";
   "__lookupGetter__"; "__lookupSetter__"; "isPrototypeOf"; "propertyIsEnumerable";
   "toString"; "valueOf"; "__proto__"; "toLocaleString"].

(** [ciphers[cipher as Cipher]] for any text (the cast checks nothing): an
    entry of the table, an inherited member, or [undefined]. *)
Inductive Member : Type :=
| Entry (c : Cipher)
| Inherited
| Absent.

Definition ciphers_at (cipher : string) : Member :=
  match find (fun c => Cipher_value c =? cipher)
          [AES_128_CBC; AES_256_CBC; AES_128_GCM; AES_256_GCM] with
  | Some c => Entry c
  | None => if existsb (String.eqb cipher) Object_prototype_keys then Inherited else Absent
  end.

(** What [randomBytes(undefined)] throws. *)
Definition invalid_size : JsError :=
  TypeError ("The " ++ String JSON.dquote ("size" ++ String JSON.dquote
             " argument must be of type number. Received undefined")).

(** What a run of a script leaves: the lines written by [console.log] and by
    [console.error], and how it ended.  The report Node.js prints of an
    uncaught exception is not part of [stderr] here. *)
Module Process.
Record Output : Type := mkOutput { stdout : list string; stderr : list string }.
Inductive Exit : Type :=
| Completed
| Exited (code : nat)
| Uncaught (e : JsError).
End Process.

(** The text both scripts give [console.error]. *)
Definition unsupported_cipher (cipher : string) : string :=
  "The provided cipher " ++ String JSON.dquote cipher ++ String JSON.dquote
  " is not supported. Supported ciphers are: " ++ String.concat ", " Object_keys_ciphers.

(** The script with [process.exit(1)]. *)
Module Keygen.

Definition main (option_cipher : option string) (rng : NodeCrypto.Entropy)
  : Process.Output * Process.Exit :=
  let cipher :=
    match option_cipher with
    | Some text => text
    | None => Cipher_value AES_256_CBC
    end in
  match ciphers_at cipher with
  | Absent =>
      ({| Process.stdout := []; Process.stderr := [unsupported_cipher cipher] |},
       Process.Exited 1)
  | Entry c =>
      let (bytes, _) := NodeCrypto.randomBytes (keyLength (ciphers c)) rng in
      ({| Process.stdout := [Buffer.toString_base64 bytes]; Process.stderr := [] |},
       Process.Completed)
  | Inherited =>
      ({| Process.stdout := []; Process.stderr := [] |}, Process.Uncaught invalid_size)
  end.

End Keygen.

(** The script that calls the service. *)
Module KeygenService.

(** [EncryptionService.generateKey(cipher as Cipher)]: reading [keyLength]
    of [undefined] throws; an inherited member has none, and [randomBytes]
    throws on it. *)
Definition generateKey_cast (cipher : string) (rng : NodeCrypto.Entropy) : Result string :=
  match ciphers_at cipher with
  | Entry c => Ok (fst (generateKey c rng))
  | Inherited => Throw invalid_size
  | Absent => Throw (TypeError "Cannot read properties of undefined (reading 'keyLength')")
  end.

Definition main (option_cipher : option string) (rng : NodeCrypto.Entropy)
  : Process.Output * Process.Exit :=
  let cipher :=
    match option_cipher with
    | Some text => text
    | None => Cipher_value AES_256_CBC
    end in
  let warning :=
    match ciphers_at cipher with
    | Absent => [unsupported_cipher cipher]
    | _ => []
    end in
  match generateKey_cast cipher rng with
  | Ok key => ({| Process.stdout := [key]; Process.stderr := warning |}, Process.Completed)
  | Throw e => ({| Process.stdout := []; Process.stderr := warning |}, Process.Uncaught e)
  end.

End KeygenService.

(** * Vocabulary of the properties *)

(** Characters [JSON.stringify] writes as they are and [JSON.parse] reads as
    they are. *)
Definition plain_char (c : ascii) : bool :=
  let n := N_of_ascii c in (negb (n =? 34) && negb (n =? 92) && (32 <=? n))%N.

Fixpoint plain (s : string) : bool :=
  match s with
  | EmptyString => true
  | String c rest => plain_char c && plain rest
  end.

Definition all_plain (props : list (string * string)) : bool :=
  forallb (fun p => plain (fst p) && plain (snd p)) props.

Definition define_all (props : list (string * string)) (acc : list (string * JS.Value))
  : list (string * JS.Value) :=
  fold_left (fun a p => JS.define a (fst p) (JS.Str (snd p))) props acc.

(** The wire format: the base64 text of the UTF-8 bytes of the JSON object
    with the three fields, each the base64 text of its bytes. *)
Definition wire (iv hmac cipherText : Buffer.t) : string :=
  Buffer.toString_base64
    (Buffer.from_utf8
       (JSON.stringify_record
          [("iv", Buffer.toString_base64 iv);
           ("hmac", Buffer.toString_base64 hmac);
           ("cipherText", Buffer.toString_base64 cipherText)])).

(** The object [JSON.parse] builds from a payload in wire format. *)
Definition wire_object (iv hmac cipherText : Buffer.t) : JS.Value :=
  JS.Object
    [("iv", JS.Str (Buffer.toString_base64 iv));
     ("hmac", JS.Str (Buffer.toString_base64 hmac));
     ("cipherText", JS.Str (Buffer.toString_base64 cipherText))].

(** [options.cipher ?? Cipher.AES_256_CBC] *)
Definition resolved_cipher (options : EncryptionModuleOptions.t) : Cipher :=
  match EncryptionModuleOptions.cipher options with
  | Some c => c
  | None => AES_256_CBC
  end.

(** The round-trip check of the service on a string:
    [Buffer.from(s, "base64").toString("base64") === s]. *)
Definition canonical (s : string) : bool :=
  Buffer.toString_base64 (Buffer.from_base64 s) =? s.

(** Whether the parsed payload has the field as an own property. *)
Definition has_field (pkg : JS.Value) (field : string) : bool :=
  match JS.hasOwn pkg field with
  | Ok present => present
  | Throw _ => false
  end.

(** The first of [iv], [cipherText], [hmac] the parsed payload lacks. *)
Definition first_missing (pkg : JS.Value) : option string :=
  find (fun field => negb (has_field pkg field)) ["iv"; "cipherText"; "hmac"].

(** The number of characters of the base64 text of [n] bytes. *)
Definition base64_length (n : nat) : nat := 4 * ((n + 2) / 3).

(** The number of [encrypt] calls in a sequence of calls. *)
Fixpoint encrypt_calls (calls : list Call) : nat :=
  match calls with
  | [] => 0
  | Encrypt _ :: rest => S (encrypt_calls rest)
  | Decrypt _ :: rest => encrypt_calls rest
  end.

(** The rounds of the cipher before the last one, and their inverses, as
    folds over the round keys. *)
Definition middle_rounds (ks : list NodeCrypto.state) (s : NodeCrypto.state) : NodeCrypto.state :=
  fold_left
    (fun t k =>
       NodeCrypto.AddRoundKey k
         (NodeCrypto.MixColumns (NodeCrypto.ShiftRows (NodeCrypto.SubBytes t))))
    ks s.

Definition inv_middle_rounds (ks : list NodeCrypto.state) (s : NodeCrypto.state)
  : NodeCrypto.state :=
  fold_left
    (fun t k =>
       NodeCrypto.InvMixColumns
         (NodeCrypto.AddRoundKey k
            (NodeCrypto.InvSubBytes (NodeCrypto.InvShiftRows t))))
    ks s.

(** * Data of the test suite and of the examples *)

(** The key of the test "fails to decrypt a payload if the hmac does not
    match", and the instance it constructs. *)
Definition test_key : string := "M/Cn64TCeBOqzmriwFpX3H0QP1RcF7eel7KkSWtpx5g=".

Definition test_service : EncryptionService :=
  {| key := Buffer.from_base64 test_key; cipher := AES_256_CBC |}.

(** The payload of that test: a 16-byte IV, one block of ciphertext and a
    32-byte tag that is not the HMAC. *)
Definition test_payload : string :=
  "eyJpdiI6InlRN3VmMEg5VFdjdFc5dEJiT0FKRWc9PSIsImhtYWMiOiJQTWVDbnB2WEJUWXZ3MTh6cDIyMmxnTzJCTjAyN2xUZC9sUFdNSUhndEhnPSIsImNpcGhlclRleHQiOiJxTWY0Q2Q2b1ZxMmZsL2dRaFpCR3FRPT0ifQ==".


(** The same payload with a fourth field, [note]. *)
Definition extra_field_payload : string :=
  "eyJpdiI6InlRN3VmMEg5VFdjdFc5dEJiT0FKRWc9PSIsImhtYWMiOiJQTWVDbnB2WEJUWXZ3MTh6cDIyMmxnTzJCTjAyN2xUZC9sUFdNSUhndEhnPSIsImNpcGhlclRleHQiOiJxTWY0Q2Q2b1ZxMmZsL2dRaFpCR3FRPT0iLCJub3RlIjoiZXh0cmEifQ==".




(** A random source that counts: its bytes are 0, 1, 2, ... *)
Definition counting_entropy : NodeCrypto.Entropy := fun i => Buffer.byte_of_N (N.of_nat i).

(** An instance for [aes-128-gcm] whose key is the bytes 0 to 15. *)
Definition gcm_key : string := "AAECAwQFBgcICQoLDA0ODw==".
Definition gcm_service : EncryptionService :=
  {| key := Buffer.from_base64 gcm_key; cipher := AES_128_GCM |}.

(** An encryption of [Hello, world!] by the instance of the test suite, with
    the IV 00 01 ... 0f. *)
Definition hello_payload : string :=
  "eyJpdiI6IkFBRUNBd1FGQmdjSUNRb0xEQTBPRHc9PSIsImhtYWMiOiJzU0pQUmdxT0prK1k0aDNEcThobzlIaUozcGIyNXdDdmJrSzdDTWd2TW1zPSIsImNpcGhlclRleHQiOiJoSWVUdExyd3VBVjByeHRYelNOZitRPT0ifQ==".

(** The next one by the same instance, with the IV 10 11 ... 1f. *)
Definition hello_payload_2 : string :=
  "eyJpdiI6IkVCRVNFeFFWRmhjWUdSb2JIQjBlSHc9PSIsImhtYWMiOiJjT2Y0U2VPeXduMHdCSWNFK3RNcHpmUFVCM1c0cjYxS1dWMTlLVmg4aDdzPSIsImNpcGhlclRleHQiOiJTMEVQSUVza0M0bXNiNTd0TTNXNFlBPT0ifQ==".

(** [hello_payload] with the 10 bytes of [invalid iv] for its IV. *)
Definition short_iv_payload : string :=
  "eyJpdiI6ImFXNTJZV3hwWkNCcGRnPT0iLCJobWFjIjoic1NKUFJncU9KaytZNGgzRHE4aG85SGlKM3BiMjV3Q3Zia0s3Q01ndk1tcz0iLCJjaXBoZXJUZXh0IjoiaEllVHRMcnd1QVYwcnh0WHpTTmYrUT09In0=".

(** [hello_payload] with [invalid hmac] and [invalid ciphertext] in the two
    later fields. *)
Definition invalid_hmac_payload : string :=
  "eyJpdiI6IkFBRUNBd1FGQmdjSUNRb0xEQTBPRHc9PSIsImhtYWMiOiJpbnZhbGlkIGhtYWMiLCJjaXBoZXJUZXh0IjoiaW52YWxpZCBjaXBoZXJ0ZXh0In0=".

(** [hello_payload] with [invalid ciphertext] for its ciphertext, and with
    the base64 text of these 18 bytes. *)
Definition invalid_ciphertext_payload : string :=
  "eyJpdiI6IkFBRUNBd1FGQmdjSUNRb0xEQTBPRHc9PSIsImhtYWMiOiJzU0pQUmdxT0prK1k0aDNEcThobzlIaUozcGIyNXdDdmJrSzdDTWd2TW1zPSIsImNpcGhlclRleHQiOiJpbnZhbGlkIGNpcGhlcnRleHQifQ==".

Definition ragged_ciphertext_payload : string :=
  "eyJpdiI6IkFBRUNBd1FGQmdjSUNRb0xEQTBPRHc9PSIsImhtYWMiOiJzU0pQUmdxT0prK1k0aDNEcThobzlIaUozcGIyNXdDdmJrSzdDTWd2TW1zPSIsImNpcGhlclRleHQiOiJhVzUyWVd4cFpDQmphWEJvWlhKMFpYaDAifQ==".

(** [hello_payload] with the number 7 for its IV. *)
Definition number_iv_payload : string :=
  "eyJpdiI6NywiaG1hYyI6InNTSlBSZ3FPSmsrWTRoM0RxOGhvOUhpSjNwYjI1d0N2YmtLN0NNZ3ZNbXM9IiwiY2lwaGVyVGV4dCI6ImhJZVR0THJ3dUFWMHJ4dFh6U05mK1E9PSJ9".

(** * Properties of the runtime model *)

(** ** Base64 *)

Lemma byte_of_to_N (b : byte) : Buffer.byte_of_N (Byte.to_N b) = b.
Proof.
  unfold Buffer.byte_of_N.
  pose proof (Byte.to_N_bounded b) as Hb.
  rewrite N.mod_small by lia.
  now rewrite Byte.of_to_N.
Qed.

Lemma list_ind3 {A : Type} (P : list A -> Prop) :
  P [] -> (forall x, P [x]) -> (forall x y, P [x; y]) ->
  (forall x y z l, P l -> P (x :: y :: z :: l)) ->
  forall l, P l.
Proof.
  intros H0 H1 H2 H3.
  fix IH 1.
  intros [|x [|y [|z l]]]; [exact H0 | apply H1 | apply H2 | apply H3, IH].
Qed.

Lemma unbase64_char (n : N) :
  (n < 64)%N ->
  Buffer.unbase64 (Buffer.base64_char n) = Some n
  /\ Ascii.eqb (Buffer.base64_char n) "="%char = false.
Proof.
  intros Hn.
  assert (Hall : forallb (fun i =>
            let m := N.of_nat i in
            match Buffer.unbase64 (Buffer.base64_char m) with
            | Some k => N.eqb k m
            | None => false
            end && negb (Ascii.eqb (Buffer.base64_char m) "="%char)) (seq 0 64) = true)
    by reflexivity.
  rewrite forallb_forall in Hall.
  specialize (Hall (N.to_nat n)).
  rewrite N2Nat.id in Hall.
  assert (Hin : In (N.to_nat n) (seq 0 64)) by (apply in_seq; lia).
  apply Hall in Hin. cbv zeta in Hin.
  apply andb_true_iff in Hin as [H1 H2].
  destruct (Buffer.unbase64 (Buffer.base64_char n)) as [k|]; [|discriminate].
  apply N.eqb_eq in H1. subst k.
  apply negb_true_iff in H2. auto.
Qed.

Lemma from_base64_go_char (n : N) (s : string) (g : list N) :
  (n < 64)%N ->
  Buffer.from_base64_go (String (Buffer.base64_char n) s) g =
  match g with
  | [a; b; c] =>
      (Buffer.byte_of_N (a * 4 + b / 16)
         :: Buffer.byte_of_N ((b mod 16) * 16 + c / 4)
         :: Buffer.byte_of_N ((c mod 4) * 64 + n)
         :: Buffer.from_base64_go s [])%N
  | _ => Buffer.from_base64_go s (g ++ [n])
  end.
Proof.
  intros Hn. destruct (unbase64_char n Hn) as [Hu He].
  cbn [Buffer.from_base64_go]. rewrite He, Hu. reflexivity.
Qed.

Ltac byte_arith :=
  repeat match goal with
         | b : byte |- _ =>
             pose proof (Byte.to_N_bounded b);
             generalize dependent (Byte.to_N b); clear b; intros
         end;
  zify; Z.to_euclidean_division_equations; lia.

Lemma byte_of_N_eq (n : N) (b : byte) : n = Byte.to_N b -> Buffer.byte_of_N n = b.
Proof. intros ->. apply byte_of_to_N. Qed.

Lemma from_base64_toString_base64 (b : Buffer.t) :
  Buffer.from_base64 (Buffer.toString_base64 b) = b.
Proof.
  unfold Buffer.from_base64.
  induction b as [|x|x y|x y z l IH] using list_ind3;
    cbn [Buffer.toString_base64];
    rewrite ?from_base64_go_char by byte_arith;
    cbn [app Buffer.from_base64_go Ascii.eqb Bool.eqb Buffer.flush_group]; rewrite ?IH;
    repeat f_equal; try (apply byte_of_N_eq; byte_arith).
Qed.

(** ** JSON *)

Lemma append_assoc (a b c : string) : (a ++ b) ++ c = a ++ b ++ c.
Proof. induction a as [|x a IH]; cbn; [reflexivity | now rewrite IH]. Qed.

Lemma append_length (a b : string) : String.length (a ++ b) = String.length a + String.length b.
Proof. induction a as [|x a IH]; cbn; [reflexivity | now rewrite IH]. Qed.

Lemma ascii_eqb_code (c d : ascii) : Ascii.eqb c d = (N_of_ascii c =? N_of_ascii d)%N.
Proof.
  destruct (Ascii.eqb_spec c d) as [->|Hne].
  - now rewrite N.eqb_refl.
  - symmetry. apply N.eqb_neq. intros H. apply Hne.
    now rewrite <- (ascii_N_embedding c), <- (ascii_N_embedding d), H.
Qed.

Lemma plain_char_spec (c : ascii) :
  plain_char c = true ->
  Ascii.eqb c JSON.dquote = false /\ Ascii.eqb c JSON.backslash = false
  /\ (N_of_ascii c <? 32)%N = false /\ JSON.escape_char c = String c EmptyString.
Proof.
  unfold plain_char. cbv zeta. intros H.
  apply andb_true_iff in H as [H H3]. apply andb_true_iff in H as [H1 H2].
  apply negb_true_iff in H1, H2. apply N.leb_le in H3.
  rewrite !ascii_eqb_code. change (N_of_ascii JSON.dquote) with 34%N.
  change (N_of_ascii JSON.backslash) with 92%N.
  repeat split; auto.
  - apply N.ltb_ge; lia.
  - unfold JSON.escape_char. cbv zeta. rewrite H1, H2.
    apply N.eqb_neq in H1, H2.
    repeat match goal with
           | |- context [(N_of_ascii c =? ?k)%N] =>
               replace (N_of_ascii c =? k)%N with false by (symmetry; apply N.eqb_neq; lia)
           end.
    replace (N_of_ascii c <? 32)%N with false by (symmetry; apply N.ltb_ge; lia).
    reflexivity.
Qed.

Lemma escape_plain (s : string) : plain s = true -> JSON.escape s = s.
Proof.
  induction s as [|c s IH]; cbn; [reflexivity|].
  intros H. apply andb_true_iff in H as [Hc Hs].
  destruct (plain_char_spec c Hc) as (_ & _ & _ & ->). cbn. now rewrite IH.
Qed.

Lemma parse_string_chars_plain (s rest : string) :
  plain s = true ->
  JSON.parse_string_chars None (s ++ String JSON.dquote rest) = Some (s, rest).
Proof.
  induction s as [|c s IH]; intros H.
  - reflexivity.
  - cbn in H. apply andb_true_iff in H as [Hc Hs].
    destruct (plain_char_spec c Hc) as (H1 & H2 & H3 & _).
    cbn [append JSON.parse_string_chars]. rewrite H1, H2, H3, (IH Hs). reflexivity.
Qed.

Lemma quote_plain (s : string) :
  plain s = true -> JSON.quote s = String JSON.dquote (s ++ String JSON.dquote EmptyString).
Proof. intros H. unfold JSON.quote. now rewrite escape_plain. Qed.

Lemma parse_value_quote (fuel : nat) (s rest : string) :
  plain s = true ->
  JSON.parse_value (S fuel) (JSON.quote s ++ rest) = Some (JS.Str s, rest).
Proof.
  intros H. rewrite quote_plain by assumption.
  cbn [append JSON.parse_value].
  change (Ascii.eqb JSON.dquote "{"%char) with false.
  change (Ascii.eqb JSON.dquote "["%char) with false.
  rewrite Ascii.eqb_refl, append_assoc. cbn [append].
  now rewrite parse_string_chars_plain.
Qed.

Lemma skip_ws_not_ws (c : ascii) (s : string) :
  JSON.is_ws c = false -> JSON.skip_ws (String c s) = String c s.
Proof. intros H. cbn. now rewrite H. Qed.

Lemma skip_ws_quote (s rest : string) : JSON.skip_ws (JSON.quote s ++ rest) = JSON.quote s ++ rest.
Proof. reflexivity. Qed.

Lemma parse_members_step (fuel : nat) (k v tail : string) (acc : list (string * JS.Value)) :
  plain k = true -> plain v = true -> 0 < fuel ->
  JSON.parse_members (S fuel) (JSON.quote k ++ ":" ++ JSON.quote v ++ tail) acc
  = match JSON.skip_ws tail with
    | String d rest4 =>
        if Ascii.eqb d ","%char
        then JSON.parse_members fuel (JSON.skip_ws rest4) (JS.define acc k (JS.Str v))
        else if Ascii.eqb d "}"%char
             then Some (JS.Object (JS.define acc k (JS.Str v)), rest4)
             else None
    | EmptyString => None
    end.
Proof.
  intros Hk Hv Hf. rewrite (quote_plain k) by assumption.
  cbn [append JSON.parse_members]. rewrite Ascii.eqb_refl, append_assoc. cbn [append].
  rewrite parse_string_chars_plain by assumption.
  cbn [JSON.skip_ws]. change (JSON.is_ws ":") with false. cbv iota.
  change (Ascii.eqb ":" ":") with true. cbv iota.
  rewrite skip_ws_quote.
  destruct fuel as [|fuel]; [lia|].
  rewrite parse_value_quote by assumption. reflexivity.
Qed.

Lemma skip_ws_stringify_members (p : string * string) (props : list (string * string)) (rest : string) :
  JSON.skip_ws (JSON.stringify_members (p :: props) ++ rest)
  = JSON.stringify_members (p :: props) ++ rest.
Proof. destruct p as [k v]. destruct props; reflexivity. Qed.

Lemma parse_members_stringify (props : list (string * string)) :
  forall (fuel : nat) (acc : list (string * JS.Value)) (rest : string),
    props <> [] ->
    all_plain props = true ->
    List.length props < fuel ->
    JSON.parse_members fuel (JSON.stringify_members props ++ String "}" rest) acc
    = Some (JS.Object (define_all props acc), rest).
Proof.
  induction props as [|[k v] props IH]; intros fuel acc rest Hne Hp Hf; [congruence|].
  cbn in Hp. apply andb_true_iff in Hp as [Hkv Hp]. apply andb_true_iff in Hkv as [Hk Hv].
  destruct fuel as [|fuel]; [cbn in Hf; lia|].
  cbn [List.length] in Hf.
  destruct props as [|p props].
  - cbn [JSON.stringify_members]. rewrite !append_assoc.
    rewrite parse_members_step by (assumption || lia).
    reflexivity.
  - change (JSON.stringify_members ((k, v) :: p :: props))
      with (JSON.quote k ++ ":" ++ JSON.quote v ++ "," ++ JSON.stringify_members (p :: props)).
    rewrite !append_assoc.
    rewrite parse_members_step by (assumption || lia).
    cbn [append JSON.skip_ws]. change (JSON.is_ws ",") with false. cbv iota.
    change (Ascii.eqb "," ",") with true. cbv iota.
    rewrite skip_ws_stringify_members.
    rewrite IH; [reflexivity|discriminate|assumption|cbn [List.length] in *; lia].
Qed.

Lemma stringify_members_length (props : list (string * string)) :
  List.length props <= String.length (JSON.stringify_members props).
Proof.
  induction props as [|[k v] props IH]; [cbn; lia|].
  destruct props as [|p props].
  - cbn. lia.
  - change (JSON.stringify_members ((k, v) :: p :: props))
      with (JSON.quote k ++ ":" ++ JSON.quote v ++ "," ++ JSON.stringify_members (p :: props)).
    rewrite !append_length. cbn [List.length] in *. cbn [String.length]. lia.
Qed.

Lemma parse_stringify_record (props : list (string * string)) :
  all_plain props = true ->
  JSON.parse (JSON.stringify_record props) = Some (JS.Object (define_all props [])).
Proof.
  intros Hp. unfold JSON.parse, JSON.stringify_record.
  pose proof (stringify_members_length props) as Hlen.
  cbn [append String.length]. rewrite append_length. cbn [String.length].
  rewrite skip_ws_not_ws by reflexivity.
  replace (2 * S (String.length (JSON.stringify_members props) + 1) + 2)
    with (S (S (2 * String.length (JSON.stringify_members props) + 4))) by lia.
  cbn [JSON.parse_value]. change (Ascii.eqb "{" "{") with true. cbv iota.
  destruct props as [|p props].
  - reflexivity.
  - rewrite skip_ws_stringify_members.
    assert (Hs : exists c r, JSON.stringify_members (p :: props) ++ "}" = String c r
                             /\ Ascii.eqb c "}"%char = false).
    { destruct p as [k' v']. destruct props; cbn [JSON.stringify_members JSON.quote append]; eauto. }
    destruct Hs as (c & r & Hs & Hc). 
    pose proof (parse_members_stringify (p :: props)
                  (S (2 * String.length (JSON.stringify_members (p :: props)) + 4)) [] EmptyString) as H.
    rewrite Hs in *. rewrite Hc. rewrite H; [reflexivity|discriminate|assumption|lia].
Qed.

(** ** The fuel of the JSON parser *)

Module JSONFuel.
Import JSON.

Lemma skip_ws_length (s : string) : String.length (skip_ws s) <= String.length s.
Proof.
  induction s as [|c s IH]; [reflexivity|].
  cbn [skip_ws]. destruct (is_ws c); cbn [String.length]; lia.
Qed.

Lemma prepend_rest (pre : string) (r : option (string * string)) (str rest : string) :
  prepend pre r = Some (str, rest) -> exists str', r = Some (str', rest).
Proof. destruct r as [[str' rest']|]; cbn; [intros [= _ <-]; eauto | discriminate]. Qed.

Lemma parse_string_chars_length (s : string) :
  forall pending str rest,
    parse_string_chars pending s = Some (str, rest) -> String.length rest < String.length s.
Proof.
  induction s as [s IH] using (well_founded_induction
                                 (Wf_nat.well_founded_ltof _ String.length)).
  intros pending str rest H. destruct s as [|c s]; [discriminate|].
  cbn [parse_string_chars] in H.
  destruct (Ascii.eqb c dquote); [injection H as _ <-; cbn; lia|].
  destruct (Ascii.eqb c backslash).
  - destruct s as [|e s1]; [discriminate|].
    destruct (simple_escape e).
    + apply prepend_rest in H as [str' H].
      apply IH in H; [cbn [String.length] in *; lia | unfold ltof; cbn; lia].
    + destruct (Ascii.eqb e "u"); [|discriminate].
      destruct s1 as [|h1 [|h2 [|h3 [|h4 s2]]]]; try discriminate.
      destruct (hex4 h1 h2 h3 h4) as [code|]; [|discriminate].
      assert (Hlt : ltof _ String.length s2 (String c (String e (String h1 (String h2 (String h3 (String h4 s2)))))))
        by (unfold ltof; cbn; lia).
      destruct (is_high_surrogate code); [|destruct (is_low_surrogate code); [destruct pending|]];
        apply prepend_rest in H as [str' H]; apply IH in H; try assumption;
        cbn [String.length] in *; lia.
  - destruct (N_of_ascii c <? 32)%N; [discriminate|].
    apply prepend_rest in H as [str' H].
    apply IH in H; [cbn [String.length] in *; lia | unfold ltof; cbn; lia].
Qed.

Lemma digits_length (s : string) : String.length (snd (digits s)) <= String.length s.
Proof.
  induction s as [|c s IH]; [reflexivity|].
  cbn [digits]. destruct (is_digit c); [|reflexivity].
  destruct (digits s) as [ds r]. cbn [snd String.length] in *. lia.
Qed.

Lemma parse_exponent_length (s lexeme rest : string) :
  parse_exponent s = Some (lexeme, rest) -> String.length rest <= String.length s.
Proof.
  unfold parse_exponent. destruct s as [|c s]; [intros [= _ <-]; reflexivity|].
  destruct (_ || _).
  - destruct s as [|g r].
    + cbn. discriminate.
    + destruct (_ || _).
      * pose proof (digits_length r) as Hd. destruct (digits r) as [ds r2].
        destruct ds; [discriminate|]. intros [= _ <-]. cbn [snd String.length] in *. lia.
      * pose proof (digits_length (String g r)) as Hd. destruct (digits (String g r)) as [ds r2].
        destruct ds; [discriminate|]. intros [= _ <-]. cbn [snd String.length] in *. lia.
  - intros [= _ <-]. reflexivity.
Qed.

Lemma parse_fraction_length (s lexeme rest : string) :
  parse_fraction s = Some (lexeme, rest) -> String.length rest <= String.length s.
Proof.
  unfold parse_fraction. destruct s as [|c s]; [intros [= _ <-]; reflexivity|].
  destruct (Ascii.eqb c ".").
  - pose proof (digits_length s) as Hd. destruct (digits s) as [ds r2].
    destruct ds; [discriminate|]. intros [= _ <-]. cbn [snd String.length] in *. lia.
  - intros [= _ <-]. reflexivity.
Qed.

Lemma parse_unsigned_length (s lexeme rest : string) :
  parse_unsigned s = Some (lexeme, rest) -> String.length rest < String.length s.
Proof.
  unfold parse_unsigned. destruct s as [|c r0]; [discriminate|].
  destruct (is_digit c); [|discriminate].
  assert (Hr : forall int rest1, String.length rest1 <= String.length r0 ->
               match parse_fraction rest1 with
               | Some (frac, rest2) =>
                   match parse_exponent rest2 with
                   | Some (exp, rest3) => Some (int ++ frac ++ exp, rest3)
                   | None => None
                   end
               | None => None
               end = Some (lexeme, rest) -> String.length rest < String.length (String c r0)).
  { intros int rest1 Hr1. destruct (parse_fraction rest1) as [[frac r2]|] eqn:Ef; [|discriminate].
    destruct (parse_exponent r2) as [[exp r3]|] eqn:Ee; [|discriminate].
    intros [= _ <-]. apply parse_fraction_length in Ef. apply parse_exponent_length in Ee.
    cbn [String.length] in *. lia. }
  destruct (Ascii.eqb c "0").
  - apply Hr. lia.
  - pose proof (digits_length r0). destruct (digits r0) as [ds r]. apply Hr. assumption.
Qed.

Lemma parse_number_length (s lexeme rest : string) :
  parse_number s = Some (lexeme, rest) -> String.length rest < String.length s.
Proof.
  unfold parse_number. destruct s as [|c r0]; [discriminate|].
  destruct (Ascii.eqb c "-").
  - intros H. apply prepend_rest in H as [str' H]. apply parse_unsigned_length in H.
    cbn [String.length]. lia.
  - apply parse_unsigned_length.
Qed.

(** One more unit of fuel changes no result. *)
Lemma parse_fuel_S (fuel : nat) :
  (forall s r, parse_value fuel s = Some r -> parse_value (S fuel) s = Some r)
  /\ (forall s acc r, parse_elements fuel s acc = Some r -> parse_elements (S fuel) s acc = Some r)
  /\ (forall s acc r, parse_members fuel s acc = Some r -> parse_members (S fuel) s acc = Some r).
Proof.
  induction fuel as [|fuel (IHv & IHe & IHm)]; [repeat split; intros; discriminate|].
  repeat split.
  - intros s r H. remember (S fuel) as g eqn:Eg. rewrite Eg in H.
    cbn [parse_value] in H |- *.
    destruct s as [|c s]; [discriminate|].
    destruct (Ascii.eqb c "{").
    { destruct (skip_ws s) as [|c1 r1]; [discriminate|].
      destruct (Ascii.eqb c1 "}"); [assumption | subst g; now apply IHm]. }
    destruct (Ascii.eqb c "[").
    { destruct (skip_ws s) as [|c1 r1]; [discriminate|].
      destruct (Ascii.eqb c1 "]"); [assumption | subst g; now apply IHe]. }
    assumption.
  - intros s acc r H. remember (S fuel) as g eqn:Eg. rewrite Eg in H.
    cbn [parse_elements] in H |- *.
    destruct (parse_value fuel s) as [[v0 r0]|] eqn:Ev; [|discriminate].
    subst g. rewrite (IHv _ _ Ev).
    destruct (skip_ws r0) as [|c r1]; [discriminate|].
    destruct (Ascii.eqb c ","); [now apply IHe | assumption].
  - intros s acc r H. remember (S fuel) as g eqn:Eg. rewrite Eg in H.
    cbn [parse_members] in H |- *.
    destruct s as [|q s]; [discriminate|].
    destruct (Ascii.eqb q dquote); [|discriminate].
    destruct (parse_string_chars None s) as [[k r1]|]; [|discriminate].
    destruct (skip_ws r1) as [|c r2]; [discriminate|].
    destruct (Ascii.eqb c ":"); [|discriminate].
    destruct (parse_value fuel (skip_ws r2)) as [[v0 r3]|] eqn:Ev; [|discriminate].
    subst g. rewrite (IHv _ _ Ev).
    destruct (skip_ws r3) as [|d r4]; [discriminate|].
    destruct (Ascii.eqb d ","); [now apply IHm | assumption].
Qed.

Lemma parse_value_fuel_le (f g : nat) (s : string) (r : JS.Value * string) :
  f <= g -> parse_value f s = Some r -> parse_value g s = Some r.
Proof. induction 1 as [|g Hle IH]; [trivial|]. intros Hp. now apply (proj1 (parse_fuel_S _)), IH. Qed.

Lemma parse_elements_fuel_le (f g : nat) (s : string) (acc : list JS.Value)
  (r : JS.Value * string) :
  f <= g -> parse_elements f s acc = Some r -> parse_elements g s acc = Some r.
Proof.
  induction 1 as [|g Hle IH]; [trivial|]. intros Hp.
  now apply (proj1 (proj2 (parse_fuel_S _))), IH.
Qed.

Lemma parse_members_fuel_le (f g : nat) (s : string) (acc : list (string * JS.Value))
  (r : JS.Value * string) :
  f <= g -> parse_members f s acc = Some r -> parse_members g s acc = Some r.
Proof.
  induction 1 as [|g Hle IH]; [trivial|]. intros Hp.
  now apply (proj2 (proj2 (parse_fuel_S _))), IH.
Qed.

Lemma strip_prefix_length (p s rest : string) :
  strip_prefix p s = Some rest -> String.length s = String.length p + String.length rest.
Proof.
  revert s. induction p as [|a p IH]; intros s H; [now injection H as <-|].
  destruct s as [|b s]; [discriminate|]. cbn [strip_prefix] in H.
  destruct (Ascii.eqb a b); [|discriminate]. apply IH in H. cbn [String.length]. lia.
Qed.

Lemma parse_literal_length (s : string) (v : JS.Value) (rest : string) :
  parse_literal s = Some (v, rest) -> String.length rest < String.length s.
Proof.
  unfold parse_literal.
  destruct (strip_prefix "true" s) eqn:E1;
    [intros [= _ <-]; apply strip_prefix_length in E1; cbn in E1; lia|].
  destruct (strip_prefix "false" s) eqn:E2;
    [intros [= _ <-]; apply strip_prefix_length in E2; cbn in E2; lia|].
  destruct (strip_prefix "null" s) eqn:E3;
    [intros [= _ <-]; apply strip_prefix_length in E3; cbn in E3; lia|].
  destruct (parse_number s) as [[lexeme r]|] eqn:E4; [|discriminate].
  intros [= _ <-]. eapply parse_number_length; eassumption.
Qed.

Lemma skip_ws_cons_length (s : string) (c : ascii) (rest : string) :
  skip_ws s = String c rest -> String.length rest < String.length s.
Proof. intros H. pose proof (skip_ws_length s) as L. rewrite H in L. cbn in L. lia. Qed.

(** The fuel a result needs is at most twice the number of characters read. *)
Lemma parse_fuel_bound (fuel : nat) :
  (forall s v rest,
      parse_value fuel s = Some (v, rest) ->
      String.length rest < String.length s
      /\ parse_value (2 * (String.length s - String.length rest)) s = Some (v, rest))
  /\ (forall s acc v rest,
         parse_elements fuel s acc = Some (v, rest) ->
         String.length rest < String.length s
         /\ parse_elements (2 * (String.length s - String.length rest)) s acc = Some (v, rest))
  /\ (forall s acc v rest,
         parse_members fuel s acc = Some (v, rest) ->
         String.length rest < String.length s
         /\ parse_members (2 * (String.length s - String.length rest)) s acc = Some (v, rest)).
Proof.
  induction fuel as [|fuel (IHv & IHe & IHm)]; [repeat split; intros; discriminate|].
  assert (Hfuel : forall a b, b < a -> exists m, 2 * (a - b) = S (S m)).
  { intros a b H. exists (2 * (a - b) - 2). lia. }
  repeat split.
  - (* the value is shorter than the text *)
    cbn [parse_value] in H. destruct s as [|c s]; [discriminate|].
    destruct (Ascii.eqb c "{").
    { destruct (skip_ws s) as [|c1 r1] eqn:Ews; [discriminate|].
      apply skip_ws_cons_length in Ews.
      destruct (Ascii.eqb c1 "}"); [injection H as _ <-; cbn; lia|].
      apply IHm in H as [H _]. cbn [String.length] in *. 
      pose proof (skip_ws_length s). lia. }
    destruct (Ascii.eqb c "[").
    { destruct (skip_ws s) as [|c1 r1] eqn:Ews; [discriminate|].
      apply skip_ws_cons_length in Ews.
      destruct (Ascii.eqb c1 "]"); [injection H as _ <-; cbn; lia|].
      apply IHe in H as [H _]. cbn [String.length] in *. lia. }
    destruct (Ascii.eqb c dquote).
    { destruct (parse_string_chars None s) as [[str r1]|] eqn:Es; [|discriminate].
      injection H as _ <-. apply parse_string_chars_length in Es. cbn; lia. }
    now apply parse_literal_length in H.
  - assert (Hlen : String.length rest < String.length s).
    { cbn [parse_value] in H. destruct s as [|c s]; [discriminate|].
      destruct (Ascii.eqb c "{").
      { destruct (skip_ws s) as [|c1 r1] eqn:Ews; [discriminate|].
        apply skip_ws_cons_length in Ews.
        destruct (Ascii.eqb c1 "}"); [injection H as _ <-; cbn; lia|].
        apply IHm in H as [H _]. cbn [String.length] in *. lia. }
      destruct (Ascii.eqb c "[").
      { destruct (skip_ws s) as [|c1 r1] eqn:Ews; [discriminate|].
        apply skip_ws_cons_length in Ews.
        destruct (Ascii.eqb c1 "]"); [injection H as _ <-; cbn; lia|].
        apply IHe in H as [H _]. cbn [String.length] in *. lia. }
      destruct (Ascii.eqb c dquote).
      { destruct (parse_string_chars None s) as [[str r1]|] eqn:Es; [|discriminate].
        injection H as _ <-. apply parse_string_chars_length in Es. cbn; lia. }
      now apply parse_literal_length in H. }
    destruct (Hfuel _ _ Hlen) as [m Hm]. rewrite Hm.
    cbn [parse_value] in H. remember (S m) as g eqn:Eg. cbn [parse_value].
    destruct s as [|c s]; [discriminate|].
    destruct (Ascii.eqb c "{").
    { destruct (skip_ws s) as [|c1 r1] eqn:Ews; [discriminate|].
      apply skip_ws_cons_length in Ews.
      destruct (Ascii.eqb c1 "}"); [assumption|].
      apply IHm in H as [H1 H2]. eapply parse_members_fuel_le; [|exact H2].
      cbn [String.length] in *. lia. }
    destruct (Ascii.eqb c "[").
    { destruct (skip_ws s) as [|c1 r1] eqn:Ews; [discriminate|].
      apply skip_ws_cons_length in Ews.
      destruct (Ascii.eqb c1 "]"); [assumption|].
      apply IHe in H as [H1 H2]. eapply parse_elements_fuel_le; [|exact H2].
      cbn [String.length] in *. lia. }
    assumption.
  - cbn [parse_elements] in H.
    destruct (parse_value fuel s) as [[v0 r0]|] eqn:Ev; [|discriminate].
    apply IHv in Ev as [Ev _].
    destruct (skip_ws r0) as [|c r1] eqn:Ews; [discriminate|].
    apply skip_ws_cons_length in Ews.
    destruct (Ascii.eqb c ",").
    + apply IHe in H as [H _]. pose proof (skip_ws_length r1). lia.
    + destruct (Ascii.eqb c "]"); [|discriminate]. injection H as _ <-. lia.
  - cbn [parse_elements] in H.
    destruct (parse_value fuel s) as [[v0 r0]|] eqn:Ev; [|discriminate].
    apply IHv in Ev as [Ev1 Ev2].
    destruct (skip_ws r0) as [|c r1] eqn:Ews; [discriminate|].
    pose proof (skip_ws_cons_length _ _ _ Ews) as Hws.
    assert (Hlen : String.length rest < String.length r0).
    { destruct (Ascii.eqb c ",").
      - apply IHe in H as [H _]. pose proof (skip_ws_length r1). lia.
      - destruct (Ascii.eqb c "]"); [|discriminate]. injection H as _ <-. lia. }
    destruct (Hfuel (String.length s) (String.length rest) ltac:(lia)) as [m Hm]. rewrite Hm.
    remember (S m) as g eqn:Eg. cbn [parse_elements].
    assert (Hg : 2 * (String.length s - String.length r0) <= g) by lia.
    rewrite (parse_value_fuel_le _ g _ _ Hg Ev2), Ews.
    destruct (Ascii.eqb c ","); [|assumption].
    apply IHe in H as [H1 H2]. eapply parse_elements_fuel_le; [|exact H2].
    pose proof (skip_ws_length r1). lia.
  - cbn [parse_members] in H.
    destruct s as [|q s]; [discriminate|].
    destruct (Ascii.eqb q dquote); [|discriminate].
    destruct (parse_string_chars None s) as [[k r1]|] eqn:Ek; [|discriminate].
    apply parse_string_chars_length in Ek.
    destruct (skip_ws r1) as [|c r2] eqn:Ews1; [discriminate|].
    apply skip_ws_cons_length in Ews1.
    destruct (Ascii.eqb c ":"); [|discriminate].
    destruct (parse_value fuel (skip_ws r2)) as [[v0 r3]|] eqn:Ev; [|discriminate].
    apply IHv in Ev as [Ev _]. pose proof (skip_ws_length r2).
    destruct (skip_ws r3) as [|d r4] eqn:Ews3; [discriminate|].
    apply skip_ws_cons_length in Ews3.
    destruct (Ascii.eqb d ",").
    + apply IHm in H as [H _]. pose proof (skip_ws_length r4). cbn [String.length]. lia.
    + destruct (Ascii.eqb d "}"); [|discriminate]. injection H as _ <-. cbn [String.length]. lia.
  - cbn [parse_members] in H.
    destruct s as [|q s]; [discriminate|].
    destruct (Ascii.eqb q dquote) eqn:Eq; [|discriminate].
    destruct (parse_string_chars None s) as [[k r1]|] eqn:Ek; [|discriminate].
    pose proof (parse_string_chars_length _ _ _ _ Ek) as Hk.
    destruct (skip_ws r1) as [|c r2] eqn:Ews1; [discriminate|].
    pose proof (skip_ws_cons_length _ _ _ Ews1) as Hws1.
    destruct (Ascii.eqb c ":") eqn:Ec; [|discriminate].
    destruct (parse_value fuel (skip_ws r2)) as [[v0 r3]|] eqn:Ev; [|discriminate].
    apply IHv in Ev as [Ev1 Ev2]. pose proof (skip_ws_length r2).
    destruct (skip_ws r3) as [|d r4] eqn:Ews3; [discriminate|].
    pose proof (skip_ws_cons_length _ _ _ Ews3) as Hws3.
    assert (Hlen : String.length rest < String.length r3).
    { destruct (Ascii.eqb d ",").
      - apply IHm in H as [H _]. pose proof (skip_ws_length r4). lia.
      - destruct (Ascii.eqb d "}"); [|discriminate]. injection H as _ <-. lia. }
    destruct (Hfuel (String.length (String q s)) (String.length rest)
                ltac:(cbn [String.length]; lia)) as [m Hm].
    rewrite Hm. remember (S m) as g eqn:Eg. cbn [parse_members].
    rewrite Eq, Ek, Ews1, Ec.
    assert (Hg : 2 * (String.length (skip_ws r2) - String.length r3) <= g).
    { cbn [String.length] in *. lia. }
    rewrite (parse_value_fuel_le _ g _ _ Hg Ev2), Ews3.
    destruct (Ascii.eqb d ","); [|assumption].
    apply IHm in H as [H1 H2]. eapply parse_members_fuel_le; [|exact H2].
    pose proof (skip_ws_length r4). cbn [String.length] in *. lia.
Qed.

(** The fuel [JSON.parse] gives its parser is never used up: what the parser
    finds with any fuel, it finds with that one. *)
Lemma parse_fuel_enough (text : string) (fuel : nat) (v : JS.Value) (rest : string) :
  parse_value fuel (skip_ws text) = Some (v, rest) ->
  parse_value (2 * String.length text + 2) (skip_ws text) = Some (v, rest).
Proof.
  intros H. apply (proj1 (parse_fuel_bound fuel)) in H as [H1 H2].
  eapply parse_value_fuel_le; [|exact H2].
  pose proof (skip_ws_length text). lia.
Qed.
(** So [JSON.parse] returns every value that the grammar finds in the text. *)
Lemma parse_complete (text : string) (fuel : nat) (v : JS.Value) (rest : string) :
  parse_value fuel (skip_ws text) = Some (v, rest) ->
  skip_ws rest = EmptyString ->
  parse text = Some v.
Proof.
  intros H Hrest. unfold parse. now rewrite (parse_fuel_enough text fuel v rest H), Hrest.
Qed.

End JSONFuel.

(** ** Base64 text and JSON *)

Lemma plain_base64_char (n : N) : plain_char (Buffer.base64_char n) = true.
Proof.
  unfold Buffer.base64_char.
  assert (Hall : forallb plain_char (list_ascii_of_string Buffer.base64_alphabet) = true)
    by reflexivity.
  rewrite forallb_forall in Hall.
  destruct (nth_in_or_default (N.to_nat n) (list_ascii_of_string Buffer.base64_alphabet) "="%char)
    as [Hin | ->]; [now apply Hall | reflexivity].
Qed.

Lemma plain_toString_base64 (b : Buffer.t) : plain (Buffer.toString_base64 b) = true.
Proof.
  induction b as [|x|x y|x y z l IH] using list_ind3;
    cbn [Buffer.toString_base64 plain]; rewrite ?plain_base64_char, ?IH; reflexivity.
Qed.

Lemma toString_base64_canonical (b : Buffer.t) :
  (Buffer.toString_base64 (Buffer.from_base64 (Buffer.toString_base64 b))
   =? Buffer.toString_base64 b) = true.
Proof. rewrite from_base64_toString_base64. apply String.eqb_refl. Qed.

Lemma toString_base64_inj (a b : Buffer.t) :
  Buffer.toString_base64 a = Buffer.toString_base64 b -> a = b.
Proof.
  intros H. rewrite <- (from_base64_toString_base64 a), <- (from_base64_toString_base64 b).
  now rewrite H.
Qed.

(** A string passes the service's round-trip check exactly when it is the
    base64 text of some bytes: what the forgiving decoder does with other
    strings never shows. *)
Lemma canonical_iff (s : string) :
  (Buffer.toString_base64 (Buffer.from_base64 s) =? s) = true
  <-> exists b, s = Buffer.toString_base64 b.
Proof.
  split.
  - intros H. apply String.eqb_eq in H. eauto.
  - intros [b ->]. apply toString_base64_canonical.
Qed.

(** ** Buffers *)

Lemma Buffer_eqb_eq (a b : Buffer.t) : Buffer.eqb a b = true <-> a = b.
Proof.
  unfold Buffer.eqb. split.
  - revert b. induction a as [|x a IH]; intros [|y b] H; cbn in H; try discriminate; auto.
    apply andb_true_iff in H as [Hl H]. apply andb_true_iff in H as [Hxy H].
    apply Byte.byte_dec_bl in Hxy. subst y. f_equal. apply IH.
    apply andb_true_iff. split; assumption.
  - intros <-. induction a as [|x a IH]; [reflexivity|].
    cbn in *. apply andb_true_iff in IH as [Hl H].
    rewrite Hl, H, (Byte.byte_dec_lb (eq_refl x)). reflexivity.
Qed.

Lemma Buffer_eqb_refl (a : Buffer.t) : Buffer.eqb a a = true.
Proof. now apply Buffer_eqb_eq. Qed.

Lemma toString_from_utf8 (s : string) : Buffer.toString (Buffer.from_utf8 s) = s.
Proof. apply string_of_list_byte_of_string. Qed.

(** ** node:crypto *)

Lemma sha256_length (msg : list byte) : List.length (NodeCrypto.sha256 msg) = 32.
Proof. reflexivity. Qed.

Lemma hmac_sha256_length (key msg : list byte) :
  List.length (NodeCrypto.hmac_sha256 key msg) = 32.
Proof. unfold NodeCrypto.hmac_sha256. apply sha256_length. Qed.

Lemma randomBytes_length (n : nat) (rng : NodeCrypto.Entropy) :
  List.length (fst (NodeCrypto.randomBytes n rng)) = n.
Proof. cbn. now rewrite length_map, length_seq. Qed.

Lemma timingSafeEqual_refl (a : list byte) : NodeCrypto.timingSafeEqual a a = Ok true.
Proof.
  unfold NodeCrypto.timingSafeEqual. now rewrite Nat.eqb_refl, Buffer_eqb_refl.
Qed.

(** * AES and CBC *)

Module AES.
Import NodeCrypto.

Lemma byte_eq_bits (a b : byte) : Byte.to_bits a = Byte.to_bits b -> a = b.
Proof. intros H. rewrite <- (Byte.of_bits_to_bits a), <- (Byte.of_bits_to_bits b). now rewrite H. Qed.

Lemma to_bits_bxor (a b : byte) :
  Byte.to_bits (bxor a b) = bits_xor (Byte.to_bits a) (Byte.to_bits b).
Proof. apply Byte.to_bits_of_bits. Qed.

Lemma to_bits_xtime (a : byte) : Byte.to_bits (xtime a) = bits_xtime (Byte.to_bits a).
Proof. apply Byte.to_bits_of_bits. Qed.

Ltac to_bits :=
  apply byte_eq_bits;
  unfold xor4, mul2, mul3, mul9, mul11, mul13, mul14;
  repeat (rewrite to_bits_bxor || rewrite to_bits_xtime);
  repeat match goal with
         | |- context [Byte.to_bits ?a] =>
             let t := fresh "t" in
             generalize (Byte.to_bits a); intros t;
             destruct t as (?b & ?b & ?b & ?b & ?b & ?b & ?b & ?b)
         end;
  cbn [bits_xor bits_xtime];
  repeat (apply f_equal2; [try btauto|]); try btauto.

Lemma bxor_cancel (a b : byte) : bxor (bxor a b) b = a.
Proof. to_bits. Qed.

Lemma InvMixColumn_MixColumn (w : word) : InvMixColumn (MixColumn w) = w.
Proof.
  destruct w as [[[a b] c] d]. cbn [MixColumn InvMixColumn].
  repeat (apply f_equal2); to_bits.
Qed.

Lemma inv_sbox_sbox (a : byte) : inv_sbox (sbox a) = a.
Proof. destruct a; reflexivity. Qed.

Lemma InvSubBytes_SubBytes (s : state) : InvSubBytes (SubBytes s) = s.
Proof.
  destruct s as [[[[[[a0 a1] a2] a3] [[[b0 b1] b2] b3]] [[[c0 c1] c2] c3]] [[[d0 d1] d2] d3]].
  unfold InvSubBytes, SubBytes, smap, wmap. now rewrite !inv_sbox_sbox.
Qed.

Lemma InvShiftRows_ShiftRows (s : state) : InvShiftRows (ShiftRows s) = s.
Proof.
  destruct s as [[[[[[a0 a1] a2] a3] [[[b0 b1] b2] b3]] [[[c0 c1] c2] c3]] [[[d0 d1] d2] d3]].
  reflexivity.
Qed.

Lemma InvMixColumns_MixColumns (s : state) : InvMixColumns (MixColumns s) = s.
Proof.
  destruct s as [[[a b] c] d]. unfold InvMixColumns, MixColumns, smap.
  now rewrite !InvMixColumn_MixColumn.
Qed.

Lemma wxor_cancel (k w : word) : wxor (wxor w k) k = w.
Proof.
  destruct w as [[[a b] c] d], k as [[[a' b'] c'] d']. unfold wxor. now rewrite !bxor_cancel.
Qed.

Lemma AddRoundKey_cancel (k s : state) : AddRoundKey k (AddRoundKey k s) = s.
Proof.
  destruct s as [[[a b] c] d], k as [[[a' b'] c'] d']. unfold AddRoundKey.
  now rewrite !wxor_cancel.
Qed.

Lemma rounds_snoc (ks : list state) (k : state) :
  forall s, rounds (ks ++ [k])%list s = AddRoundKey k (ShiftRows (SubBytes (middle_rounds ks s))).
Proof.
  induction ks as [|k' ks IH]; intros s; [reflexivity|].
  cbn [app middle_rounds fold_left]. rewrite <- IH.
  destruct ks; reflexivity.
Qed.

Lemma inv_rounds_snoc (ks : list state) (k : state) :
  forall s, inv_rounds (ks ++ [k])%list s
            = AddRoundKey k (InvSubBytes (InvShiftRows (inv_middle_rounds ks s))).
Proof.
  induction ks as [|k' ks IH]; intros s; [reflexivity|].
  cbn [app inv_middle_rounds fold_left]. rewrite <- IH.
  destruct ks; reflexivity.
Qed.

Lemma inv_middle_rounds_middle_rounds (ks : list state) (s : state) :
  inv_middle_rounds (rev ks) (ShiftRows (SubBytes (middle_rounds ks s)))
  = ShiftRows (SubBytes s).
Proof.
  induction ks as [|k ks IH] using rev_ind; [reflexivity|].
  rewrite rev_unit. unfold middle_rounds. rewrite fold_left_app. cbn [fold_left].
  fold (middle_rounds ks s). unfold inv_middle_rounds at 1. cbn [fold_left].
  fold (inv_middle_rounds (rev ks)).
  rewrite InvShiftRows_ShiftRows, InvSubBytes_SubBytes, AddRoundKey_cancel,
    InvMixColumns_MixColumns.
  exact IH.
Qed.

Lemma InvCipher_Cipher (ks : list state) (s : state) : InvCipher ks (Cipher ks s) = s.
Proof.
  destruct ks as [|k0 ks]; [reflexivity|].
  destruct ks as [|k ks _] using rev_ind.
  - cbn. apply AddRoundKey_cancel.
  - unfold InvCipher, Cipher.
    change (k0 :: (ks ++ [k])%list) with ((k0 :: ks) ++ [k])%list. rewrite rev_unit.
    cbn [rev]. rewrite rounds_snoc, inv_rounds_snoc, AddRoundKey_cancel.
    rewrite inv_middle_rounds_middle_rounds.
    now rewrite InvShiftRows_ShiftRows, InvSubBytes_SubBytes, AddRoundKey_cancel.
Qed.

Lemma block_of_state_length (s : state) : List.length (block_of_state s) = 16.
Proof.
  destruct s as [[[[[[a0 a1] a2] a3] [[[b0 b1] b2] b3]] [[[c0 c1] c2] c3]] [[[d0 d1] d2] d3]].
  reflexivity.
Qed.

Lemma state_of_block_of_state (s : state) : state_of_block (block_of_state s) = s.
Proof.
  destruct s as [[[[[[a0 a1] a2] a3] [[[b0 b1] b2] b3]] [[[c0 c1] c2] c3]] [[[d0 d1] d2] d3]].
  reflexivity.
Qed.

Lemma block_of_state_of_block (b : list byte) :
  List.length b = 16 -> block_of_state (state_of_block b) = b.
Proof.
  intros H.
  do 16 (destruct b as [|? b]; [discriminate H|]).
  destruct b; [reflexivity | discriminate H].
Qed.

Lemma encrypt_block_length (ks : list state) (b : list byte) :
  List.length (encrypt_block ks b) = 16.
Proof. apply block_of_state_length. Qed.

Lemma decrypt_encrypt_block (ks : list state) (b : list byte) :
  List.length b = 16 -> decrypt_block ks (encrypt_block ks b) = b.
Proof.
  intros H. unfold decrypt_block, encrypt_block.
  now rewrite state_of_block_of_state, InvCipher_Cipher, block_of_state_of_block.
Qed.

(** ** CBC *)

Lemma xor_bytes_length (a b : list byte) :
  List.length (xor_bytes a b) = Nat.min (List.length a) (List.length b).
Proof. unfold xor_bytes. now rewrite length_map, length_combine. Qed.

Lemma xor_bytes_cancel (a b : list byte) :
  List.length a = List.length b -> xor_bytes (xor_bytes a b) b = a.
Proof.
  revert b. induction a as [|x a IH]; intros [|y b] H; try discriminate H; [reflexivity|].
  injection H as H. unfold xor_bytes in *. cbn [combine map fst snd].
  now rewrite bxor_cancel, IH.
Qed.

Lemma chunks_go_enough {A : Type} (n : nat) (l : list A) :
  0 < n -> forall fuel, List.length l <= fuel -> chunks_go fuel n l = chunks_go (List.length l) n l.
Proof.
  intros Hn.
  induction l as [l IH] using (well_founded_induction (Wf_nat.well_founded_ltof _ (@List.length A))).
  intros fuel Hf. destruct l as [|x l]; [destruct fuel; reflexivity|].
  destruct fuel as [|fuel]; [cbn in Hf; lia|].
  cbn [List.length chunks_go]. f_equal.
  assert (Hs : List.length (skipn n (x :: l)) < List.length (x :: l)).
  { rewrite length_skipn. cbn [List.length]. lia. }
  rewrite (IH _ Hs fuel), (IH _ Hs (List.length l)); [reflexivity| |]; cbn [List.length] in *; lia.
Qed.

Lemma chunks_app {A : Type} (n : nat) (a l : list A) :
  0 < n -> List.length a = n -> chunks n (a ++ l)%list = a :: chunks n l.
Proof.
  intros Hn Ha. unfold chunks.
  destruct a as [|x a]; [cbn in Ha; lia|].
  cbn [app List.length chunks_go]. change (x :: (a ++ l)%list) with ((x :: a) ++ l)%list.
  rewrite firstn_app, skipn_app, Ha, Nat.sub_diag, firstn_all2, skipn_all2 by lia.
  cbn [firstn skipn app]. rewrite app_nil_r. f_equal.
  apply chunks_go_enough; [assumption|]. rewrite length_app. lia.
Qed.

Lemma chunks_nil {A : Type} (n : nat) : chunks n (@nil A) = [].
Proof. reflexivity. Qed.

Lemma concat_chunks {A : Type} (n : nat) (l : list A) : 0 < n -> List.concat (chunks n l) = l.
Proof.
  intros Hn. unfold chunks.
  induction l as [l IH] using (well_founded_induction (Wf_nat.well_founded_ltof _ (@List.length A))).
  destruct l as [|x l]; [reflexivity|].
  cbn [List.length chunks_go List.concat].
  assert (Hs : List.length (skipn n (x :: l)) < List.length (x :: l)).
  { rewrite length_skipn. cbn [List.length]. lia. }
  rewrite chunks_go_enough by (assumption || cbn [List.length] in *; lia).
  rewrite (IH _ Hs). apply firstn_skipn.
Qed.

Lemma chunks_whole {A : Type} (n : nat) (l : list A) :
  0 < n -> List.length l mod n = 0 -> Forall (fun c => List.length c = n) (chunks n l).
Proof.
  intros Hn. unfold chunks.
  induction l as [l IH] using (well_founded_induction (Wf_nat.well_founded_ltof _ (@List.length A))).
  intros Hm. destruct l as [|x l]; [constructor|].
  cbn [List.length chunks_go].
  assert (Hle : n <= List.length (x :: l)).
  { apply Nat.Div0.div_exact in Hm. cbn [List.length] in *.
    destruct (S (List.length l) / n); nia. }
  assert (Hs : List.length (skipn n (x :: l)) < List.length (x :: l)).
  { rewrite length_skipn. cbn [List.length]. lia. }
  constructor.
  - rewrite length_firstn. lia.
  - rewrite chunks_go_enough by (assumption || cbn [List.length] in *; lia).
    apply (IH _ Hs). rewrite length_skipn.
    replace (List.length (x :: l)) with ((List.length (x :: l) - n) + 1 * n) in Hm by lia.
    now rewrite Nat.Div0.mod_add in Hm.
Qed.

Lemma cbc_encrypt_blocks_length (ks : list state) (blocks : list (list byte)) :
  forall prev, List.length (cbc_encrypt_blocks ks prev blocks) = 16 * List.length blocks.
Proof.
  induction blocks as [|b blocks IH]; intros prev; [reflexivity|].
  cbn [cbc_encrypt_blocks List.length]. rewrite length_app, encrypt_block_length, IH. lia.
Qed.

Lemma cbc_decrypt_encrypt_blocks (ks : list state) (blocks : list (list byte)) :
  forall prev,
    List.length prev = 16 ->
    Forall (fun b => List.length b = 16) blocks ->
    cbc_decrypt_blocks ks prev (chunks 16 (cbc_encrypt_blocks ks prev blocks))
    = List.concat blocks.
Proof.
  induction blocks as [|b blocks IH]; intros prev Hp Hb; [reflexivity|].
  inversion Hb as [|b' blocks' Hb1 Hb2]; subst.
  cbn [cbc_encrypt_blocks List.concat].
  rewrite chunks_app by (lia || apply encrypt_block_length).
  cbn [cbc_decrypt_blocks].
  rewrite decrypt_encrypt_block by (rewrite xor_bytes_length; lia).
  rewrite xor_bytes_cancel by lia.
  f_equal. apply IH; [apply encrypt_block_length | assumption].
Qed.

(** ** PKCS#7 *)

Lemma pkcs7_pad_length (data : list byte) :
  List.length (pkcs7_pad data) mod 16 = 0 /\ 0 < List.length (pkcs7_pad data).
Proof.
  unfold pkcs7_pad. rewrite length_app, repeat_length.
  pose proof (Nat.mod_upper_bound (List.length data) 16 ltac:(lia)) as Hm.
  split; [|lia].
  rewrite (Nat.div_mod_eq (List.length data) 16) at 1.
  replace (16 * (List.length data / 16) + List.length data mod 16
           + (16 - List.length data mod 16))
    with ((List.length data / 16 + 1) * 16) by lia.
  apply Nat.Div0.mod_mul.
Qed.

Lemma to_N_byte_of_N (n : N) : (n < 256)%N -> Byte.to_N (Buffer.byte_of_N n) = n.
Proof.
  intros H. unfold Buffer.byte_of_N. rewrite N.mod_small by assumption.
  destruct (Byte.of_N n) as [b|] eqn:E.
  - now apply Byte.to_of_N.
  - apply Byte.of_N_None_iff in E. lia.
Qed.

Lemma pkcs7_unpad_pad (data : list byte) : pkcs7_unpad (pkcs7_pad data) = Some data.
Proof.
  unfold pkcs7_pad, pkcs7_unpad.
  pose proof (Nat.mod_upper_bound (List.length data) 16 ltac:(lia)) as Hm.
  set (n := 16 - List.length data mod 16) in *.
  assert (Hn : 1 <= n <= 16) by (unfold n; lia).
  set (x := byte_of_N (N.of_nat n)).
  assert (Hlast : last (data ++ repeat x n) x00 = x).
  { destruct n as [|n']; [lia|].
    replace (S n') with (n' + 1) by lia. rewrite repeat_app, app_assoc. cbn [repeat].
    apply last_last. }
  assert (Hx : N.to_nat (Byte.to_N x) = n).
  { unfold x, byte_of_N. rewrite to_N_byte_of_N by lia. apply Nat2N.id. }
  rewrite Hlast, Hx, length_app, repeat_length.
  replace (List.length data + n - n) with (List.length data) by lia.
  rewrite skipn_app, firstn_app, skipn_all, firstn_all, Nat.sub_diag.
  cbn [skipn firstn app]. rewrite app_nil_r, Buffer_eqb_refl.
  replace ((1 <=? n) && (n <=? 16) && (n <=? List.length data + n))%nat with true; [reflexivity|].
  symmetry. rewrite !andb_true_iff, !Nat.leb_le. lia.
Qed.

(** ** The cipher and the decipher *)

Lemma createCipheriv_cbc_length (n : nat) (key iv data ct : list byte) :
  createCipheriv_update_final (aes_cbc n) key iv data = Ok ct ->
  List.length ct mod 16 = 0 /\ 0 < List.length ct.
Proof.
  cbn [createCipheriv_update_final].
  destruct (negb _); [discriminate|]. destruct (negb _); [discriminate|].
  intros [= <-]. unfold cbc_encrypt. rewrite cbc_encrypt_blocks_length.
  destruct (pkcs7_pad_length data) as [Hm Hp].
  split; [rewrite Nat.mul_comm; apply Nat.Div0.mod_mul|].
  destruct (pkcs7_pad data) as [|x l] eqn:E; [cbn in Hp; lia|].
  unfold chunks. cbn [List.length chunks_go]. lia.
Qed.

Lemma createDecipheriv_createCipheriv_cbc (n : nat) (key iv data : list byte) :
  List.length key = n -> List.length iv = 16 ->
  exists ct,
    createCipheriv_update_final (aes_cbc n) key iv data = Ok ct
    /\ createDecipheriv_update_final (aes_cbc n) key iv ct = Ok data.
Proof.
  intros Hk Hiv. exists (cbc_encrypt key iv data).
  assert (Hc : createCipheriv_update_final (aes_cbc n) key iv data = Ok (cbc_encrypt key iv data)).
  { cbn [createCipheriv_update_final]. now rewrite Hk, Hiv, !Nat.eqb_refl. }
  split; [exact Hc|].
  destruct (createCipheriv_cbc_length _ _ _ _ _ Hc) as [Hm Hp].
  cbn [createDecipheriv_update_final]. rewrite Hk, Hiv, !Nat.eqb_refl, Hm. cbn [negb].
  replace (List.length (cbc_encrypt key iv data) =? 0)%nat with false
    by (symmetry; apply Nat.eqb_neq; lia).
  cbn [orb Nat.eqb negb]. unfold cbc_encrypt.
  destruct (pkcs7_pad_length data) as [Hm' Hp'].
  rewrite cbc_decrypt_encrypt_blocks by (assumption || apply chunks_whole; lia || assumption).
  rewrite concat_chunks by lia. now rewrite pkcs7_unpad_pad.
Qed.

End AES.

(** * The envelope *)

Lemma computeHmac_spec (this : EncryptionService) (cipherText iv : Buffer.t) :
  computeHmac this cipherText iv = NodeCrypto.hmac_sha256 (key this) (cipherText ++ iv)%list.
Proof. reflexivity. Qed.

Lemma computeHmac_length (this : EncryptionService) (cipherText iv : Buffer.t) :
  List.length (computeHmac this cipherText iv) = 32.
Proof. rewrite computeHmac_spec. apply hmac_sha256_length. Qed.

Lemma encrypt_wire (this : EncryptionService) (plaintext : string) (rng : NodeCrypto.Entropy) :
  fst (encrypt this plaintext rng)
  = (let iv := fst (generateIV this rng) in
     cipherText <- NodeCrypto.createCipheriv_update_final
                     (algorithm (cipher this)) (key this) iv (Buffer.from_utf8 plaintext) ;;
     Ok (wire iv (computeHmac this cipherText iv) cipherText)).
Proof.
  unfold encrypt. destruct (generateIV this rng) as [iv rng'] eqn:E. cbn [fst].
  destruct (NodeCrypto.createCipheriv_update_final _ _ _ _); reflexivity.
Qed.

Lemma encrypt_entropy (this : EncryptionService) (plaintext : string) (rng : NodeCrypto.Entropy) :
  snd (encrypt this plaintext rng) = snd (generateIV this rng).
Proof. unfold encrypt. destruct (generateIV this rng); reflexivity. Qed.

Lemma generateIV_length (this : EncryptionService) (rng : NodeCrypto.Entropy) :
  List.length (fst (generateIV this rng)) = ivLength (ciphers (cipher this)).
Proof. apply randomBytes_length. Qed.

Lemma parse_wire (iv hmac cipherText : Buffer.t) :
  JSON.parse (Buffer.toString (Buffer.from_base64 (wire iv hmac cipherText)))
  = Some (wire_object iv hmac cipherText).
Proof.
  unfold wire. rewrite from_base64_toString_base64, toString_from_utf8.
  rewrite parse_stringify_record; [reflexivity|].
  cbn [all_plain forallb fst snd]. rewrite !plain_toString_base64. reflexivity.
Qed.

Lemma wire_canonical (iv hmac cipherText : Buffer.t) :
  (Buffer.toString_base64 (Buffer.from_base64 (wire iv hmac cipherText))
   =? wire iv hmac cipherText) = true.
Proof. apply toString_base64_canonical. Qed.

Lemma wire_inj (iv hmac cipherText iv' hmac' cipherText' : Buffer.t) :
  wire iv hmac cipherText = wire iv' hmac' cipherText' ->
  iv = iv' /\ hmac = hmac' /\ cipherText = cipherText'.
Proof.
  intros H.
  pose proof (parse_wire iv hmac cipherText) as P.
  rewrite H, parse_wire in P. injection P as H1 H2 H3.
  repeat split; now apply toString_base64_inj.
Qed.

Section Envelope.
Context {rt : Runtime}.

Lemma Buffer_from_base64_Str (s : string) :
  Buffer_from_base64 (JS.Str s) = Ok (Buffer.from_base64 s).
Proof. reflexivity. Qed.

Lemma decodeIV_base64 (this : EncryptionService) (iv : Buffer.t) :
  decodeIV this (JS.Str (Buffer.toString_base64 iv))
  = if negb (List.length iv =? ivLength (ciphers (cipher this)))%nat then
      Throw (Error ("The decoded IV is not the correct length. Expected "
                    ++ JS.decimal (ivLength (ciphers (cipher this)))
                    ++ " bytes, got " ++ JS.decimal (List.length iv) ++ " bytes."))
    else Ok iv.
Proof.
  unfold decodeIV. rewrite Buffer_from_base64_Str. cbn [bind JS.string_strict_neq].
  rewrite toString_base64_canonical. cbn [negb].
  now rewrite from_base64_toString_base64.
Qed.

Lemma decodeHmac_base64 (hmac : Buffer.t) :
  decodeHmac (JS.Str (Buffer.toString_base64 hmac)) = Ok hmac.
Proof.
  unfold decodeHmac. rewrite Buffer_from_base64_Str. cbn [bind JS.string_strict_neq].
  rewrite toString_base64_canonical. cbn [negb].
  now rewrite from_base64_toString_base64.
Qed.

Lemma decodeCipherText_base64 (this : EncryptionService) (cipherText : Buffer.t) :
  decodeCipherText this (JS.Str (Buffer.toString_base64 cipherText))
  = if negb (List.length cipherText mod blockLength (ciphers (cipher this)) =? 0)%nat then
      Throw (Error "The length of the decoded ciphertext is not a multiple of the cipher's block length.")
    else Ok cipherText.
Proof.
  unfold decodeCipherText. rewrite Buffer_from_base64_Str. cbn [bind JS.string_strict_neq].
  rewrite toString_base64_canonical. cbn [negb].
  now rewrite from_base64_toString_base64.
Qed.

(** Decoding a payload in wire format: the two length checks are all that
    can fail. *)
Lemma decodeAEADPayload_wire (this : EncryptionService) (iv hmac cipherText : Buffer.t) :
  decodeAEADPayload this (wire iv hmac cipherText)
  = (iv' <- decodeIV this (JS.Str (Buffer.toString_base64 iv)) ;;
     cipherText' <- decodeCipherText this (JS.Str (Buffer.toString_base64 cipherText)) ;;
     Ok (AEADPayload.make iv' hmac cipherText')).
Proof.
  unfold decodeAEADPayload. rewrite wire_canonical. cbn [negb].
  rewrite parse_wire. cbn [bind].
  change (check_fields (wire_object iv hmac cipherText) ["iv"; "cipherText"; "hmac"]) with (Ok tt).
  cbn [bind].
  change (JS.get (wire_object iv hmac cipherText) "iv")
    with (JS.Str (Buffer.toString_base64 iv)).
  change (JS.get (wire_object iv hmac cipherText) "hmac")
    with (JS.Str (Buffer.toString_base64 hmac)).
  change (JS.get (wire_object iv hmac cipherText) "cipherText")
    with (JS.Str (Buffer.toString_base64 cipherText)).
  rewrite decodeHmac_base64.
  destruct (decodeIV this _); reflexivity.
Qed.

End Envelope.

(** * Construction and key generation *)

Lemma decodeKey_cases (cipher : Cipher) (k : string) :
  decodeKey cipher k
  = if negb (canonical k) then Throw (Error "The key must be a valid base64-encoded string.")
    else if negb (List.length (Buffer.from_base64 k) =? keyLength (ciphers cipher))%nat then
      Throw (Error ("The decoded key must be " ++ JS.decimal (keyLength (ciphers cipher))
                    ++ " bytes long."))
    else Ok (Buffer.from_base64 k).
Proof. reflexivity. Qed.

Lemma constructor_Ok (options : EncryptionModuleOptions.t) (this : EncryptionService) :
  constructor options = Ok this ->
  canonical (EncryptionModuleOptions.key options) = true
  /\ this = {| key := Buffer.from_base64 (EncryptionModuleOptions.key options);
               cipher := resolved_cipher options |}
  /\ List.length (key this) = keyLength (ciphers (cipher this)).
Proof.
  unfold constructor. fold (resolved_cipher options). cbv zeta.
  rewrite decodeKey_cases.
  destruct (canonical (EncryptionModuleOptions.key options)); cbn [negb]; [|discriminate].
  destruct (List.length _ =? _)%nat eqn:E; cbn [negb bind catch]; [|discriminate].
  intros [= <-]. apply Nat.eqb_eq in E. cbn [key cipher]. auto.
Qed.

(** C5: a key that fails the base64 round-trip check is refused with the
    base64 reason; a key that passes it and decodes to a number of bytes other
    than the cipher's [keyLength] is refused with the length reason, the
    expected number written in it; both as [UnableToInitialize], for every
    cipher (also the default one). *)
Theorem constructor_rejects_invalid_key (options : EncryptionModuleOptions.t) :
  (canonical (EncryptionModuleOptions.key options) = false ->
   constructor options
   = Throw (UnableToInitialize "The key must be a valid base64-encoded string."))
  /\ (canonical (EncryptionModuleOptions.key options) = true ->
      List.length (Buffer.from_base64 (EncryptionModuleOptions.key options))
      <> keyLength (ciphers (resolved_cipher options)) ->
      constructor options
      = Throw (UnableToInitialize
                 ("The decoded key must be "
                  ++ JS.decimal (keyLength (ciphers (resolved_cipher options)))
                  ++ " bytes long."))).
Proof.
  unfold constructor. fold (resolved_cipher options). cbv zeta.
  rewrite decodeKey_cases. split.
  - intros ->. reflexivity.
  - intros -> Hlen. apply Nat.eqb_neq in Hlen. rewrite Hlen. reflexivity.
Qed.

(** The two constructions of the test suite that must fail. *)
Lemma constructor_rejects_invalid_key_witness :
  constructor (EncryptionModuleOptions.make "invalid key" (Some AES_256_CBC))
  = Throw (UnableToInitialize "The key must be a valid base64-encoded string.")
  /\ constructor (EncryptionModuleOptions.make "aW52YWxpZCBrZXk=" (Some AES_128_GCM))
     = Throw (UnableToInitialize "The decoded key must be 16 bytes long.").
Proof.
  split.
  - apply (proj1 (constructor_rejects_invalid_key
                    (EncryptionModuleOptions.make "invalid key" (Some AES_256_CBC)))).
    reflexivity.
  - apply (proj2 (constructor_rejects_invalid_key
                    (EncryptionModuleOptions.make "aW52YWxpZCBrZXk=" (Some AES_128_GCM)))).
    + reflexivity.
    + cbn. lia.
Defined.

(** C8: for each cipher the generated key is base64 text that decodes to
    exactly [keyLength] bytes, 16 for the 128-bit ciphers and 32 for the
    256-bit ones; [generateKey] takes no instance. *)
Theorem generateKey_decodes_to_keyLength (cipher : Cipher) (rng : NodeCrypto.Entropy) :
  canonical (fst (generateKey cipher rng)) = true
  /\ List.length (Buffer.from_base64 (fst (generateKey cipher rng))) = keyLength (ciphers cipher)
  /\ keyLength (ciphers cipher)
     = match cipher with
       | AES_128_CBC | AES_128_GCM => 16
       | AES_256_CBC | AES_256_GCM => 32
       end.
Proof.
  unfold generateKey, canonical.
  destruct (NodeCrypto.randomBytes (keyLength (ciphers cipher)) rng) as [bytes rng'] eqn:E.
  cbn [fst]. rewrite from_base64_toString_base64, String.eqb_refl.
  assert (Hlen : List.length bytes = keyLength (ciphers cipher)).
  { change bytes with (fst (bytes, rng')). rewrite <- E. apply randomBytes_length. }
  repeat split; [assumption | destruct cipher; reflexivity].
Qed.

(** * Decryption *)



(** The loop over the field names stops at the first one the payload lacks. *)
Lemma check_fields_first_missing (pkg : JS.Value) :
  pkg <> JS.Null -> pkg <> JS.Undefined ->
  check_fields pkg ["iv"; "cipherText"; "hmac"]
  = match first_missing pkg with
    | Some field => Throw (Error ("The AEAD payload is missing the " ++ field ++ " field."))
    | None => Ok tt
    end.
Proof.
  intros Hn Hu. unfold first_missing, has_field.
  assert (H : forall f, exists b, JS.hasOwn pkg f = Ok b).
  { intros f. destruct pkg; cbn; eauto; congruence. }
  cbn [check_fields find].
  destruct (H "iv") as [b1 ->]. cbn [bind]. destruct b1; cbn [negb]; [|reflexivity].
  destruct (H "cipherText") as [b2 ->]. cbn [bind]. destruct b2; cbn [negb]; [|reflexivity].
  destruct (H "hmac") as [b3 ->]. cbn [bind]. destruct b3; reflexivity.
Qed.

Lemma check_fields_null : 
  check_fields JS.Null ["iv"; "cipherText"; "hmac"]
  = Throw (TypeError "Cannot convert undefined or null to object").
Proof. reflexivity. Qed.

Section Decryption.
Context {rt : Runtime}.

(** [decrypt] after the outer base64 check and [JSON.parse] have passed. *)
Lemma decrypt_parsed (this : EncryptionService) (encrypted : string) (pkg : JS.Value) :
  canonical encrypted = true ->
  JSON.parse (Buffer.toString (Buffer.from_base64 encrypted)) = Some pkg ->
  decrypt this encrypted
  = catch
      (aead <- (check_fields pkg ["iv"; "cipherText"; "hmac"] ;;;
                iv <- decodeIV this (JS.get pkg "iv") ;;
                hmac <- decodeHmac (JS.get pkg "hmac") ;;
                cipherText <- decodeCipherText this (JS.get pkg "cipherText") ;;
                Ok (AEADPayload.make iv hmac cipherText)) ;;
       verifyHmac this (AEADPayload.cipherText aead) (AEADPayload.iv aead)
         (AEADPayload.hmac aead) ;;;
       decrypted <- NodeCrypto.createDecipheriv_update_final
                      (algorithm (cipher this)) (key this) (AEADPayload.iv aead)
                      (AEADPayload.cipherText aead) ;;
       Ok (Buffer.toString decrypted))
      (fun e => Throw (UnableToDecrypt (message e))).
Proof.
  intros Hc Hp. unfold decrypt, decodeAEADPayload.
  unfold canonical in Hc. rewrite Hc, Hp. reflexivity.
Qed.


End Decryption.

(** ** The payloads of the test suite *)

Lemma constructor_test_service :
  constructor (EncryptionModuleOptions.make test_key (Some AES_256_CBC)) = Ok test_service.
Proof. reflexivity. Qed.



Section Validation.
Context {rt : Runtime}.



(** The presence check and the three reads see an object only through the
    three fields. *)
Lemma check_fields_agree (p1 p2 : list (string * JS.Value)) (fields : list string) :
  (forall f, In f fields -> JS.lookup p1 f = JS.lookup p2 f) ->
  check_fields (JS.Object p1) fields = check_fields (JS.Object p2) fields.
Proof.
  induction fields as [|f fields IH]; intros H; [reflexivity|].
  cbn [check_fields JS.hasOwn bind]. rewrite (H f) by (left; reflexivity).
  destruct (JS.lookup p2 f); cbn [negb]; [|reflexivity].
  apply IH. intros g Hg. apply H. now right.
Qed.

(** C10: two payloads whose parsed objects agree on [iv], [cipherText] and
    [hmac] get the same outcome from [decrypt], whatever other fields either
    of them carries. *)
Theorem decrypt_ignores_extra_fields
  (this : EncryptionService) (e1 e2 : string) (p1 p2 : list (string * JS.Value)) :
  canonical e1 = true ->
  canonical e2 = true ->
  JSON.parse (Buffer.toString (Buffer.from_base64 e1)) = Some (JS.Object p1) ->
  JSON.parse (Buffer.toString (Buffer.from_base64 e2)) = Some (JS.Object p2) ->
  (forall f, In f ["iv"; "cipherText"; "hmac"] -> JS.lookup p1 f = JS.lookup p2 f) ->
  decrypt this e1 = decrypt this e2.
Proof.
  intros Hc1 Hc2 Hp1 Hp2 Hagree.
  rewrite (decrypt_parsed this e1 _ Hc1 Hp1), (decrypt_parsed this e2 _ Hc2 Hp2).
  rewrite (check_fields_agree p1 p2 _ Hagree).
  unfold JS.get.
  rewrite !Hagree by (cbn; tauto).
  reflexivity.
Qed.

End Validation.




(** The payload of the test suite, and the same with a fourth field. *)
Lemma decrypt_ignores_extra_fields_witness :
  JSON.parse (Buffer.toString (Buffer.from_base64 extra_field_payload))
  = Some (JS.Object [("iv", JS.Str "yQ7uf0H9TWctW9tBbOAJEg==");
                     ("hmac", JS.Str "PMeCnpvXBTYvw18zp222lgO2BN027lTd/lPWMIHgtHg=");
                     ("cipherText", JS.Str "qMf4Cd6oVq2fl/gQhZBGqQ==");
                     ("note", JS.Str "extra")])
  /\ @decrypt strings_only test_service test_payload
     = @decrypt strings_only test_service extra_field_payload.
Proof.
  split; [reflexivity|].
  apply (@decrypt_ignores_extra_fields strings_only test_service
           test_payload extra_field_payload
           [("iv", JS.Str "yQ7uf0H9TWctW9tBbOAJEg==");
            ("hmac", JS.Str "PMeCnpvXBTYvw18zp222lgO2BN027lTd/lPWMIHgtHg=");
            ("cipherText", JS.Str "qMf4Cd6oVq2fl/gQhZBGqQ==")]
           [("iv", JS.Str "yQ7uf0H9TWctW9tBbOAJEg==");
            ("hmac", JS.Str "PMeCnpvXBTYvw18zp222lgO2BN027lTd/lPWMIHgtHg=");
            ("cipherText", JS.Str "qMf4Cd6oVq2fl/gQhZBGqQ==");
            ("note", JS.Str "extra")]); try reflexivity.
  intros f [<- | [<- | [<- | []]]]; reflexivity.
Defined.

(** * Instances and encryption *)

Section Lifetime.
Context {rt : Runtime}.

Lemma perform_self (w : World) (c : Call) : self (snd (perform w c)) = self w.
Proof.
  destruct c as [plaintext | encrypted]; cbn [perform]; [|reflexivity].
  destruct (encrypt (self w) plaintext (entropy w)); reflexivity.
Qed.

Lemma run_self (calls : list Call) : forall w, self (run w calls) = self w.
Proof.
  induction calls as [|c calls IH]; intros w; [reflexivity|].
  cbn [run]. now rewrite IH, perform_self.
Qed.

(** C6: the constructor either raises [UnableToInitialize] or returns an
    instance with both fields set, whose key is the decoded option and has
    exactly [keyLength] bytes for its cipher; and whatever calls are made on
    the instance, it stays the same instance, so the key length and the
    cipher never change. *)
Theorem constructed_instance_invariant (options : EncryptionModuleOptions.t) :
  match constructor options with
  | Ok this =>
      cipher this = resolved_cipher options
      /\ key this = Buffer.from_base64 (EncryptionModuleOptions.key options)
      /\ List.length (key this) = keyLength (ciphers (cipher this))
      /\ forall (calls : list Call) (rng : NodeCrypto.Entropy),
           self (run {| self := this; entropy := rng |} calls) = this
           /\ List.length (key (self (run {| self := this; entropy := rng |} calls)))
              = keyLength (ciphers (cipher (self (run {| self := this; entropy := rng |} calls))))
  | Throw e => exists reason, e = UnableToInitialize reason
  end.
Proof.
  destruct (constructor options) as [this | e] eqn:E.
  - destruct (constructor_Ok options this E) as (_ & -> & Hlen).
    cbn [key cipher] in *. repeat split; try assumption.
    all: rewrite run_self; [reflexivity || assumption].
  - unfold constructor in E. cbv zeta in E.
    destruct (decodeKey _ _) as [k | e0]; cbn [bind catch] in E; [discriminate|].
    injection E as <-. eauto.
Qed.

End Lifetime.

(** What [encrypt] returns when the cipher has run. *)
Lemma encrypt_Ok (this : EncryptionService) (plaintext : string) (rng : NodeCrypto.Entropy)
  (encrypted : string) :
  fst (encrypt this plaintext rng) = Ok encrypted ->
  exists cipherText,
    NodeCrypto.createCipheriv_update_final (algorithm (cipher this)) (key this)
      (fst (generateIV this rng)) (Buffer.from_utf8 plaintext) = Ok cipherText
    /\ encrypted
       = wire (fst (generateIV this rng))
           (NodeCrypto.hmac_sha256 (key this) (cipherText ++ fst (generateIV this rng))%list)
           cipherText.
Proof.
  rewrite encrypt_wire. cbv zeta.
  destruct (NodeCrypto.createCipheriv_update_final _ _ _ _) as [cipherText | e];
    cbn [bind]; [|discriminate].
  intros [= <-]. exists cipherText. split; [reflexivity|].
  now rewrite computeHmac_spec.
Qed.

(** C3: the tag in the payload of every encryption is
    HMAC-SHA256(key, cipherText || iv), one digest of an [Hmac] object fed
    the ciphertext and then the IV of the same payload, for every cipher. *)
Theorem encrypt_tag_is_hmac
  (this : EncryptionService) (plaintext : string) (rng : NodeCrypto.Entropy)
  (encrypted : string) :
  fst (encrypt this plaintext rng) = Ok encrypted ->
  exists iv cipherText,
    JSON.parse (Buffer.toString (Buffer.from_base64 encrypted))
    = Some (wire_object iv (NodeCrypto.hmac_sha256 (key this) (cipherText ++ iv)%list) cipherText)
    /\ NodeCrypto.hmac_sha256 (key this) (cipherText ++ iv)%list
       = NodeCrypto.digest
           (NodeCrypto.update
              (NodeCrypto.update (NodeCrypto.createHmac_sha256 (key this)) cipherText) iv)
    /\ iv = fst (generateIV this rng)
    /\ NodeCrypto.createCipheriv_update_final (algorithm (cipher this)) (key this) iv
         (Buffer.from_utf8 plaintext) = Ok cipherText.
Proof.
  intros H. destruct (encrypt_Ok this plaintext rng encrypted H) as (cipherText & Hc & ->).
  exists (fst (generateIV this rng)), cipherText.
  rewrite parse_wire. repeat split; assumption || reflexivity.
Qed.

Lemma encrypt_hello :
  fst (encrypt test_service "Hello, world!" counting_entropy) = Ok hello_payload.
Proof. vm_compute. reflexivity. Qed.

Lemma encrypt_hello_2 :
  fst (encrypt test_service "Hello, world!"
         (snd (encrypt test_service "Hello, world!" counting_entropy)))
  = Ok hello_payload_2.
Proof. vm_compute. reflexivity. Qed.

Lemma encrypt_tag_is_hmac_witness :
  fst (encrypt test_service "Hello, world!" counting_entropy) = Ok hello_payload
  /\ exists iv cipherText,
       JSON.parse (Buffer.toString (Buffer.from_base64 hello_payload))
       = Some (wire_object iv
                 (NodeCrypto.hmac_sha256 (key test_service) (cipherText ++ iv)%list) cipherText)
       /\ NodeCrypto.hmac_sha256 (key test_service) (cipherText ++ iv)%list
          = NodeCrypto.digest
              (NodeCrypto.update
                 (NodeCrypto.update (NodeCrypto.createHmac_sha256 (key test_service)) cipherText)
                 iv)
       /\ iv = fst (generateIV test_service counting_entropy)
       /\ NodeCrypto.createCipheriv_update_final (algorithm (cipher test_service))
            (key test_service) iv (Buffer.from_utf8 "Hello, world!") = Ok cipherText.
Proof.
  split; [exact encrypt_hello|].
  exact (encrypt_tag_is_hmac test_service "Hello, world!" counting_entropy hello_payload
           encrypt_hello).
Defined.

(** C9: every call of [encrypt] takes its IV, [ivLength] bytes, from the
    random source and leaves the source past them; the payload carries those
    bytes; and two encryptions of one plaintext by one instance give
    different outputs whenever the two IVs drawn differ. *)
Theorem encrypt_fresh_iv
  (this : EncryptionService) (plaintext : string) (rng1 rng2 : NodeCrypto.Entropy)
  (e1 e2 : string) :
  fst (encrypt this plaintext rng1) = Ok e1 ->
  fst (encrypt this plaintext rng2) = Ok e2 ->
  let n := ivLength (ciphers (cipher this)) in
  (exists hmac cipherText,
      JSON.parse (Buffer.toString (Buffer.from_base64 e1))
      = Some (wire_object (map rng1 (seq 0 n)) hmac cipherText))
  /\ snd (encrypt this plaintext rng1) = (fun i => rng1 (n + i))
  /\ (map rng1 (seq 0 n) <> map rng2 (seq 0 n) -> e1 <> e2).
Proof.
  intros H1 H2 n.
  destruct (encrypt_Ok this plaintext rng1 e1 H1) as (c1 & _ & ->).
  destruct (encrypt_Ok this plaintext rng2 e2 H2) as (c2 & _ & ->).
  rewrite encrypt_entropy. split; [|split].
  - do 2 eexists. apply parse_wire.
  - reflexivity.
  - intros Hiv Heq. apply wire_inj in Heq as (Heq & _). exact (Hiv Heq).
Qed.

(** Two calls in a row on the instance of the test suite: the second reads
    the random source where the first left it. *)
Lemma encrypt_fresh_iv_witness :
  fst (encrypt test_service "Hello, world!" counting_entropy) = Ok hello_payload
  /\ fst (encrypt test_service "Hello, world!"
            (snd (encrypt test_service "Hello, world!" counting_entropy)))
     = Ok hello_payload_2
  /\ hello_payload <> hello_payload_2.
Proof.
  split; [exact encrypt_hello|]. split; [exact encrypt_hello_2|].
  refine (proj2 (proj2 (encrypt_fresh_iv test_service "Hello, world!" counting_entropy
                          (snd (encrypt test_service "Hello, world!" counting_entropy))
                          hello_payload hello_payload_2 encrypt_hello encrypt_hello_2)) _).
  vm_compute. discriminate.
Defined.

(** * Round trips *)

Section GCM.
Context {rt : Runtime}.

(** X2: with a GCM cipher [decrypt] returns on no input: the last step of its
    body, [decipher.final()], throws for want of an authentication tag, and
    every earlier step either passes or throws. *)
Lemma gcm_decrypt_throws (this : EncryptionService) (encrypted : string) :
  cipher this = AES_128_GCM \/ cipher this = AES_256_GCM ->
  exists reason, decrypt this encrypted = Throw (UnableToDecrypt reason).
Proof.
  intros Hc. unfold decrypt.
  destruct (decodeAEADPayload this encrypted) as [aead | e]; cbn [bind catch]; [|eauto].
  destruct (verifyHmac this _ _ _) as [u | e]; cbn [bind catch]; [|eauto].
  assert (H : exists e, NodeCrypto.createDecipheriv_update_final (algorithm (cipher this))
                          (key this) (AEADPayload.iv aead) (AEADPayload.cipherText aead)
                        = Throw e).
  { destruct Hc as [-> | ->]; cbn [algorithm NodeCrypto.createDecipheriv_update_final];
      repeat match goal with |- context [if ?b then _ else _] => destruct b end; eauto. }
  destruct H as [e ->]. cbn [bind catch]. eauto.
Qed.

End GCM.

(** C1 fails on the code for the GCM ciphers.  The instance for
    [aes-128-gcm] with the key 00 01 ... 0f encrypts [Hello, world!] under
    the IV 00 01 ... 0b to a payload whose ciphertext has 13 bytes, as long as
    the plaintext; [decrypt] refuses that payload for its length. *)
Theorem gcm_round_trip_fails :
  constructor (EncryptionModuleOptions.make gcm_key (Some AES_128_GCM)) = Ok gcm_service
  /\ fst (encrypt gcm_service "Hello, world!" counting_entropy)
     = Ok "eyJpdiI6IkFBRUNBd1FGQmdjSUNRb0wiLCJobWFjIjoiTWh6SGhzb3RwTVYrbklKQy8vZ0E0Y3pSalZ2Sy9lS2x5U01IMTQ5dGpTMD0iLCJjaXBoZXJUZXh0IjoiMnduTG9nazMxeU1rb0EzdUZ3PT0ifQ=="
  /\ @decrypt strings_only gcm_service
       "eyJpdiI6IkFBRUNBd1FGQmdjSUNRb0wiLCJobWFjIjoiTWh6SGhzb3RwTVYrbklKQy8vZ0E0Y3pSalZ2Sy9lS2x5U01IMTQ5dGpTMD0iLCJjaXBoZXJUZXh0IjoiMnduTG9nazMxeU1rb0EzdUZ3PT0ifQ=="
     = Throw (UnableToDecrypt
                "The length of the decoded ciphertext is not a multiple of the cipher's block length.").
Proof.
  split; [reflexivity|]. split.
  - vm_compute. reflexivity.
  - vm_compute. reflexivity.
Qed.

(** A plaintext of 16 bytes passes the length check and the HMAC, and is
    refused by the decipher. *)
Lemma gcm_round_trip_fails_on_whole_blocks :
  fst (encrypt gcm_service "0123456789abcdef" counting_entropy)
  = Ok "eyJpdiI6IkFBRUNBd1FGQmdjSUNRb0wiLCJobWFjIjoibFFleUtUUHJOVWFZSlE4anhKalJjUEpISEdtMWYzTXVhR3FORkFzdHdFQT0iLCJjaXBoZXJUZXh0IjoibzEyVi9WSXV3V056NndEb1ZjY1ZiZz09In0="
  /\ @decrypt strings_only gcm_service
       "eyJpdiI6IkFBRUNBd1FGQmdjSUNRb0wiLCJobWFjIjoibFFleUtUUHJOVWFZSlE4anhKalJjUEpISEdtMWYzTXVhR3FORkFzdHdFQT0iLCJjaXBoZXJUZXh0IjoibzEyVi9WSXV3V056NndEb1ZjY1ZiZz09In0="
     = Throw (UnableToDecrypt "Unsupported state or unable to authenticate data").
Proof. split; vm_compute; reflexivity. Qed.

Section CBC.
Context {rt : Runtime}.

(** X1: for the two CBC ciphers, [decrypt] returns what [encrypt] was given:
    every instance the constructor returns, every plaintext and every state
    of the random source. *)
Theorem cbc_round_trip
  (options : EncryptionModuleOptions.t) (this : EncryptionService)
  (plaintext : string) (rng : NodeCrypto.Entropy) :
  constructor options = Ok this ->
  cipher this = AES_128_CBC \/ cipher this = AES_256_CBC ->
  exists encrypted,
    fst (encrypt this plaintext rng) = Ok encrypted
    /\ decrypt this encrypted = Ok plaintext.
Proof.
  intros Hnew Hcbc.
  destruct (constructor_Ok options this Hnew) as (_ & _ & Hkey).
  pose proof (generateIV_length this rng) as Hiv.
  set (iv := fst (generateIV this rng)) in *.
  assert (Halg : algorithm (cipher this) = NodeCrypto.aes_cbc (keyLength (ciphers (cipher this)))
                 /\ ivLength (ciphers (cipher this)) = 16
                 /\ blockLength (ciphers (cipher this)) = 16)
    by (destruct Hcbc as [-> | ->]; repeat split).
  destruct Halg as (Halg & Hiv16 & Hblock).
  destruct (AES.createDecipheriv_createCipheriv_cbc (keyLength (ciphers (cipher this)))
              (key this) iv (Buffer.from_utf8 plaintext) Hkey ltac:(congruence))
    as (ct & Henc & Hdec).
  destruct (AES.createCipheriv_cbc_length _ _ _ _ _ Henc) as [Hmod _].
  exists (wire iv (computeHmac this ct iv) ct). split.
  - rewrite encrypt_wire. cbv zeta. fold iv. rewrite Halg, Henc. reflexivity.
  - unfold decrypt. rewrite decodeAEADPayload_wire, decodeIV_base64, decodeCipherText_base64.
    rewrite Hiv, Hblock, Hmod, Nat.eqb_refl. cbn [negb Nat.eqb bind AEADPayload.cipherText
      AEADPayload.iv AEADPayload.hmac].
    unfold verifyHmac. rewrite timingSafeEqual_refl. cbn [bind negb].
    rewrite Halg, Hdec. cbn [bind catch]. now rewrite toString_from_utf8.
Qed.

End CBC.

(** The test "encrypts and decrypts strings", on the instance and the payload
    above. *)
Lemma cbc_round_trip_witness :
  fst (encrypt test_service "Hello, world!" counting_entropy) = Ok hello_payload
  /\ exists encrypted,
       fst (encrypt test_service "Hello, world!" counting_entropy) = Ok encrypted
       /\ @decrypt strings_only test_service encrypted = Ok "Hello, world!".
Proof.
  split; [exact encrypt_hello|].
  exact (@cbc_round_trip strings_only (EncryptionModuleOptions.make test_key (Some AES_256_CBC))
           test_service "Hello, world!" counting_entropy constructor_test_service
           (or_intror eq_refl)).
Defined.

(** The instance for [aes-128-gcm] refuses the payload of the test suite
    too, as it refuses every input. *)
Lemma gcm_decrypt_throws_witness :
  exists reason, @decrypt strings_only gcm_service test_payload = Throw (UnableToDecrypt reason).
Proof.
  exact (@gcm_decrypt_throws strings_only gcm_service test_payload (or_introl eq_refl)).
Defined.

(** * What [decrypt] accepts *)





Section Accepted.
Context {rt : Runtime}.

(** A value on which the round-trip check passes is a string, the base64
    text of the bytes read from it: [!==] holds between a string and a value
    of any other type. *)
Lemma round_trip_Str (value : JS.Value) (bytes : Buffer.t) :
  Buffer_from_base64 value = Ok bytes ->
  JS.string_strict_neq (Buffer.toString_base64 bytes) value = false ->
  value = JS.Str (Buffer.toString_base64 bytes).
Proof.
  destruct value; cbn [JS.string_strict_neq]; try discriminate.
  intros _ H. apply negb_false_iff, String.eqb_eq in H. now rewrite H.
Qed.

Lemma decodeIV_Ok (this : EncryptionService) (encodedIV : JS.Value) (iv : Buffer.t) :
  decodeIV this encodedIV = Ok iv ->
  encodedIV = JS.Str (Buffer.toString_base64 iv)
  /\ List.length iv = ivLength (ciphers (cipher this)).
Proof.
  unfold decodeIV.
  destruct (Buffer_from_base64 encodedIV) as [b | e] eqn:Eb; cbn [bind]; [|discriminate].
  destruct (JS.string_strict_neq _ _) eqn:En; [discriminate|].
  destruct (List.length b =? _)%nat eqn:El; cbn [negb]; [|discriminate].
  intros [= <-]. split; [now apply round_trip_Str | now apply Nat.eqb_eq].
Qed.

Lemma decodeHmac_Ok (encodedHmac : JS.Value) (hmac : Buffer.t) :
  decodeHmac encodedHmac = Ok hmac -> encodedHmac = JS.Str (Buffer.toString_base64 hmac).
Proof.
  unfold decodeHmac.
  destruct (Buffer_from_base64 encodedHmac) as [b | e] eqn:Eb; cbn [bind]; [|discriminate].
  destruct (JS.string_strict_neq _ _) eqn:En; [discriminate|].
  intros [= <-]. now apply round_trip_Str.
Qed.

Lemma decodeCipherText_Ok (this : EncryptionService) (encodedCipherText : JS.Value)
  (cipherText : Buffer.t) :
  decodeCipherText this encodedCipherText = Ok cipherText ->
  encodedCipherText = JS.Str (Buffer.toString_base64 cipherText)
  /\ List.length cipherText mod blockLength (ciphers (cipher this)) = 0.
Proof.
  unfold decodeCipherText.
  destruct (Buffer_from_base64 encodedCipherText) as [b | e] eqn:Eb; cbn [bind]; [|discriminate].
  destruct (JS.string_strict_neq _ _) eqn:En; [discriminate|].
  destruct (_ =? 0)%nat eqn:El; cbn [negb]; [|discriminate].
  intros [= <-]. split; [now apply round_trip_Str | now apply Nat.eqb_eq].
Qed.

(** What [decodeAEADPayload] returns, it has read from three strings. *)
Lemma decodeAEADPayload_Ok (this : EncryptionService) (encodedPayload : string)
  (aead : AEADPayload.t Buffer.t) :
  decodeAEADPayload this encodedPayload = Ok aead ->
  canonical encodedPayload = true
  /\ exists pkg,
       JSON.parse (Buffer.toString (Buffer.from_base64 encodedPayload)) = Some pkg
       /\ JS.get pkg "iv" = JS.Str (Buffer.toString_base64 (AEADPayload.iv aead))
       /\ JS.get pkg "hmac" = JS.Str (Buffer.toString_base64 (AEADPayload.hmac aead))
       /\ JS.get pkg "cipherText" = JS.Str (Buffer.toString_base64 (AEADPayload.cipherText aead))
       /\ List.length (AEADPayload.iv aead) = ivLength (ciphers (cipher this))
       /\ List.length (AEADPayload.cipherText aead) mod blockLength (ciphers (cipher this)) = 0.
Proof.
  unfold decodeAEADPayload. fold (canonical encodedPayload).
  destruct (canonical encodedPayload); cbn [negb]; [|discriminate].
  destruct (JSON.parse _) as [pkg|]; cbn [bind]; [|discriminate].
  destruct (check_fields pkg _); cbn [bind]; [|discriminate].
  destruct (decodeIV this _) as [iv | e] eqn:Eiv; cbn [bind]; [|discriminate].
  destruct (decodeHmac _) as [hmac | e] eqn:Eh; cbn [bind]; [|discriminate].
  destruct (decodeCipherText this _) as [ct | e] eqn:Ec; cbn [bind]; [|discriminate].
  intros [= <-]. cbn [AEADPayload.iv AEADPayload.hmac AEADPayload.cipherText].
  apply decodeIV_Ok in Eiv as [Eiv Hiv]. apply decodeHmac_Ok in Eh.
  apply decodeCipherText_Ok in Ec as [Ec Hc].
  split; [reflexivity|]. exists pkg. repeat split; assumption.
Qed.



End Accepted.

(** * What [decrypt] refuses *)

Section Refused.
Context {rt : Runtime}.

(** X4: an input on which the base64 round-trip check fails is refused with
    the reason of the outer layer, and one that passes it and decodes to text
    [JSON.parse] does not take, with the JSON reason; the instance and its
    cipher play no part. *)
Theorem decrypt_rejects_malformed_envelope (this : EncryptionService) (encrypted : string) :
  (canonical encrypted = false ->
   decrypt this encrypted
   = Throw (UnableToDecrypt "The encoded AEAD payload is not a valid base64-encoded string."))
  /\ (canonical encrypted = true ->
      JSON.parse (Buffer.toString (Buffer.from_base64 encrypted)) = None ->
      decrypt this encrypted
      = Throw (UnableToDecrypt "The decoded AEAD payload is not a valid JSON string.")).
Proof.
  unfold decrypt, decodeAEADPayload. fold (canonical encrypted). split.
  - intros ->. reflexivity.
  - intros -> ->. reflexivity.
Qed.

(** X5: a payload in which [iv], [hmac] or [cipherText] is not a string is
    never decrypted, whatever [Buffer.from] makes of the value: either it
    throws, or the text of the bytes it returns is compared with a value that
    is no string. *)
Theorem decrypt_rejects_non_string_field
  (this : EncryptionService) (encrypted : string) (pkg : JS.Value) (field : string) :
  JSON.parse (Buffer.toString (Buffer.from_base64 encrypted)) = Some pkg ->
  In field ["iv"; "hmac"; "cipherText"] ->
  (forall s, JS.get pkg field <> JS.Str s) ->
  exists reason, decrypt this encrypted = Throw (UnableToDecrypt reason).
Proof.
  intros Hp Hf Hns. unfold decrypt.
  destruct (decodeAEADPayload this encrypted) as [aead | e] eqn:Ed; cbn [bind catch]; [|eauto].
  exfalso.
  apply decodeAEADPayload_Ok in Ed as (_ & pkg' & Hp' & Hiv & Hh & Hct & _).
  rewrite Hp in Hp'. injection Hp' as <-.
  destruct Hf as [<- | [<- | [<- | []]]]; eapply Hns; eassumption.
Qed.

(** [decrypt] on a payload that has the three fields. *)
Lemma decrypt_fields (this : EncryptionService) (encrypted : string) (pkg : JS.Value) :
  canonical encrypted = true ->
  JSON.parse (Buffer.toString (Buffer.from_base64 encrypted)) = Some pkg ->
  first_missing pkg = None ->
  decrypt this encrypted
  = catch
      (aead <- (iv <- decodeIV this (JS.get pkg "iv") ;;
                hmac <- decodeHmac (JS.get pkg "hmac") ;;
                cipherText <- decodeCipherText this (JS.get pkg "cipherText") ;;
                Ok (AEADPayload.make iv hmac cipherText)) ;;
       verifyHmac this (AEADPayload.cipherText aead) (AEADPayload.iv aead)
         (AEADPayload.hmac aead) ;;;
       decrypted <- NodeCrypto.createDecipheriv_update_final
                      (algorithm (cipher this)) (key this) (AEADPayload.iv aead)
                      (AEADPayload.cipherText aead) ;;
       Ok (Buffer.toString decrypted))
      (fun e => Throw (UnableToDecrypt (message e))).
Proof.
  intros Hc Hp Hm. rewrite (decrypt_parsed this encrypted pkg Hc Hp).
  rewrite check_fields_first_missing, Hm; [reflexivity| |]; intros ->; discriminate Hm.
Qed.

(** X6: an [iv] that is base64 text of a number of bytes other than the
    cipher's [ivLength] is refused with the length reason, the expected and
    the actual number written in it, whatever the [hmac] and [cipherText]
    fields hold. *)
Theorem decrypt_reports_iv_length
  (this : EncryptionService) (encrypted : string) (pkg : JS.Value) (iv : Buffer.t) :
  canonical encrypted = true ->
  JSON.parse (Buffer.toString (Buffer.from_base64 encrypted)) = Some pkg ->
  first_missing pkg = None ->
  JS.get pkg "iv" = JS.Str (Buffer.toString_base64 iv) ->
  List.length iv <> ivLength (ciphers (cipher this)) ->
  decrypt this encrypted
  = Throw (UnableToDecrypt
             ("The decoded IV is not the correct length. Expected "
              ++ JS.decimal (ivLength (ciphers (cipher this)))
              ++ " bytes, got " ++ JS.decimal (List.length iv) ++ " bytes.")).
Proof.
  intros Hc Hp Hm Hiv Hlen.
  rewrite (decrypt_fields this encrypted pkg Hc Hp Hm), Hiv, decodeIV_base64.
  apply Nat.eqb_neq in Hlen. rewrite Hlen. reflexivity.
Qed.

(** X7: with a valid [iv], an [hmac] on which the round-trip check fails is
    refused with the HMAC reason, whatever the [cipherText] field holds: the
    tag is decoded before the ciphertext. *)
Theorem decrypt_checks_hmac_before_ciphertext
  (this : EncryptionService) (encrypted : string) (pkg : JS.Value) (iv hmac : Buffer.t) :
  canonical encrypted = true ->
  JSON.parse (Buffer.toString (Buffer.from_base64 encrypted)) = Some pkg ->
  first_missing pkg = None ->
  JS.get pkg "iv" = JS.Str (Buffer.toString_base64 iv) ->
  List.length iv = ivLength (ciphers (cipher this)) ->
  Buffer_from_base64 (JS.get pkg "hmac") = Ok hmac ->
  JS.string_strict_neq (Buffer.toString_base64 hmac) (JS.get pkg "hmac") = true ->
  decrypt this encrypted
  = Throw (UnableToDecrypt "The HMAC is not a valid base64-encoded string.").
Proof.
  intros Hc Hp Hm Hiv Hlen Hh Hbad.
  rewrite (decrypt_fields this encrypted pkg Hc Hp Hm), Hiv, decodeIV_base64.
  rewrite Hlen, Nat.eqb_refl. cbn [negb bind].
  unfold decodeHmac. rewrite Hh. cbn [bind]. rewrite Hbad. reflexivity.
Qed.

(** X8: with a valid [iv] and an [hmac] that is base64 text, a [cipherText]
    on which the round-trip check fails is refused with the base64 reason of
    the ciphertext, and one that is base64 text of a number of bytes that is
    no multiple of the block length, with the block-length reason; both
    whatever the tag is, the HMAC included: the tag is compared after the
    ciphertext has been decoded. *)
Theorem decrypt_checks_ciphertext_before_tag
  (this : EncryptionService) (encrypted : string) (pkg : JS.Value)
  (iv hmac cipherText : Buffer.t) :
  canonical encrypted = true ->
  JSON.parse (Buffer.toString (Buffer.from_base64 encrypted)) = Some pkg ->
  first_missing pkg = None ->
  JS.get pkg "iv" = JS.Str (Buffer.toString_base64 iv) ->
  List.length iv = ivLength (ciphers (cipher this)) ->
  JS.get pkg "hmac" = JS.Str (Buffer.toString_base64 hmac) ->
  Buffer_from_base64 (JS.get pkg "cipherText") = Ok cipherText ->
  (JS.string_strict_neq (Buffer.toString_base64 cipherText) (JS.get pkg "cipherText") = true ->
   decrypt this encrypted
   = Throw (UnableToDecrypt "The encoded ciphertext is not a valid base64-encoded string."))
  /\ (JS.string_strict_neq (Buffer.toString_base64 cipherText) (JS.get pkg "cipherText") = false ->
      List.length cipherText mod blockLength (ciphers (cipher this)) <> 0 ->
      decrypt this encrypted
      = Throw (UnableToDecrypt
                 "The length of the decoded ciphertext is not a multiple of the cipher's block length.")).
Proof.
  intros Hc Hp Hm Hiv Hlen Hh Hct.
  rewrite (decrypt_fields this encrypted pkg Hc Hp Hm), Hiv, decodeIV_base64.
  rewrite Hlen, Nat.eqb_refl, Hh, decodeHmac_base64. cbn [negb bind].
  unfold decodeCipherText. rewrite Hct. cbn [bind].
  split.
  - intros ->. reflexivity.
  - intros -> Hmod. apply Nat.eqb_neq in Hmod. rewrite Hmod. reflexivity.
Qed.

End Refused.

(** The tests "fails to decrypt a payload if it is not a valid base64-encoded
    string" and "... if its decoded value is not a valid JSON string", and
    the empty text. *)
Lemma decrypt_rejects_malformed_envelope_witness :
  @decrypt strings_only test_service "invalid payload"
  = Throw (UnableToDecrypt "The encoded AEAD payload is not a valid base64-encoded string.")
  /\ @decrypt strings_only test_service "bm90IHZhbGlkIGpzb24="
     = Throw (UnableToDecrypt "The decoded AEAD payload is not a valid JSON string.")
  /\ @decrypt strings_only test_service EmptyString
     = Throw (UnableToDecrypt "The decoded AEAD payload is not a valid JSON string.").
Proof.
  split; [|split].
  - apply (proj1 (@decrypt_rejects_malformed_envelope strings_only test_service
                    "invalid payload")).
    reflexivity.
  - apply (proj2 (@decrypt_rejects_malformed_envelope strings_only test_service
                    "bm90IHZhbGlkIGpzb24=")); reflexivity.
  - apply (proj2 (@decrypt_rejects_malformed_envelope strings_only test_service EmptyString));
      reflexivity.
Defined.

(** A payload whose IV is a number. *)
Lemma decrypt_rejects_non_string_field_witness :
  JSON.parse (Buffer.toString (Buffer.from_base64 number_iv_payload))
  = Some (JS.Object [("iv", JS.Number "7");
                     ("hmac", JS.Str "sSJPRgqOJk+Y4h3Dq8ho9HiJ3pb25wCvbkK7CMgvMms=");
                     ("cipherText", JS.Str "hIeTtLrwuAV0rxtXzSNf+Q==")])
  /\ exists reason,
       @decrypt strings_only test_service number_iv_payload = Throw (UnableToDecrypt reason).
Proof.
  split; [reflexivity|].
  apply (@decrypt_rejects_non_string_field strings_only test_service number_iv_payload
           (JS.Object [("iv", JS.Number "7");
                       ("hmac", JS.Str "sSJPRgqOJk+Y4h3Dq8ho9HiJ3pb25wCvbkK7CMgvMms=");
                       ("cipherText", JS.Str "hIeTtLrwuAV0rxtXzSNf+Q==")]) "iv").
  - reflexivity.
  - left. reflexivity.
  - intros s. cbn. discriminate.
Defined.

(** The test "fails to decrypt if the IV length is not correct for the
    cipher". *)
Lemma decrypt_reports_iv_length_witness :
  JSON.parse (Buffer.toString (Buffer.from_base64 short_iv_payload))
  = Some (JS.Object [("iv", JS.Str "aW52YWxpZCBpdg==");
                     ("hmac", JS.Str "sSJPRgqOJk+Y4h3Dq8ho9HiJ3pb25wCvbkK7CMgvMms=");
                     ("cipherText", JS.Str "hIeTtLrwuAV0rxtXzSNf+Q==")])
  /\ @decrypt strings_only test_service short_iv_payload
     = Throw (UnableToDecrypt
                "The decoded IV is not the correct length. Expected 16 bytes, got 10 bytes.").
Proof.
  split; [reflexivity|].
  apply (@decrypt_reports_iv_length strings_only test_service short_iv_payload
           (JS.Object [("iv", JS.Str "aW52YWxpZCBpdg==");
                       ("hmac", JS.Str "sSJPRgqOJk+Y4h3Dq8ho9HiJ3pb25wCvbkK7CMgvMms=");
                       ("cipherText", JS.Str "hIeTtLrwuAV0rxtXzSNf+Q==")])
           (Buffer.from_utf8 "invalid iv")); try reflexivity.
  cbn. lia.
Defined.

(** The test "fails to decrypt if the HMAC is not a valid base64-encoded
    string", with a ciphertext that is invalid too. *)
Lemma decrypt_checks_hmac_before_ciphertext_witness :
  JSON.parse (Buffer.toString (Buffer.from_base64 invalid_hmac_payload))
  = Some (JS.Object [("iv", JS.Str "AAECAwQFBgcICQoLDA0ODw==");
                     ("hmac", JS.Str "invalid hmac");
                     ("cipherText", JS.Str "invalid ciphertext")])
  /\ canonical "invalid ciphertext" = false
  /\ @decrypt strings_only test_service invalid_hmac_payload
     = Throw (UnableToDecrypt "The HMAC is not a valid base64-encoded string.").
Proof.
  do 2 (split; [reflexivity|]).
  apply (@decrypt_checks_hmac_before_ciphertext strings_only test_service invalid_hmac_payload
           (JS.Object [("iv", JS.Str "AAECAwQFBgcICQoLDA0ODw==");
                       ("hmac", JS.Str "invalid hmac");
                       ("cipherText", JS.Str "invalid ciphertext")])
           (Buffer.from_base64 "AAECAwQFBgcICQoLDA0ODw==")
           (Buffer.from_base64 "invalid hmac")); reflexivity.
Defined.

(** The tests "fails to decrypt if the cipherText is not a valid
    base64-encoded string" and "... if the length of the ciphertext is not a
    multiple of the cipher's block length"; in both the tag is the one of
    [hello_payload]. *)
Lemma decrypt_checks_ciphertext_before_tag_witness :
  @decrypt strings_only test_service invalid_ciphertext_payload
  = Throw (UnableToDecrypt "The encoded ciphertext is not a valid base64-encoded string.")
  /\ @decrypt strings_only test_service ragged_ciphertext_payload
     = Throw (UnableToDecrypt
                "The length of the decoded ciphertext is not a multiple of the cipher's block length.").
Proof.
  split.
  - apply (proj1 (@decrypt_checks_ciphertext_before_tag strings_only test_service
                    invalid_ciphertext_payload
                    (JS.Object [("iv", JS.Str "AAECAwQFBgcICQoLDA0ODw==");
                                ("hmac", JS.Str "sSJPRgqOJk+Y4h3Dq8ho9HiJ3pb25wCvbkK7CMgvMms=");
                                ("cipherText", JS.Str "invalid ciphertext")])
                    (Buffer.from_base64 "AAECAwQFBgcICQoLDA0ODw==")
                    (Buffer.from_base64 "sSJPRgqOJk+Y4h3Dq8ho9HiJ3pb25wCvbkK7CMgvMms=")
                    (Buffer.from_base64 "invalid ciphertext")
                    eq_refl eq_refl eq_refl eq_refl eq_refl eq_refl eq_refl)).
    reflexivity.
  - apply (proj2 (@decrypt_checks_ciphertext_before_tag strings_only test_service
                    ragged_ciphertext_payload
                    (JS.Object [("iv", JS.Str "AAECAwQFBgcICQoLDA0ODw==");
                                ("hmac", JS.Str "sSJPRgqOJk+Y4h3Dq8ho9HiJ3pb25wCvbkK7CMgvMms=");
                                ("cipherText", JS.Str "aW52YWxpZCBjaXBoZXJ0ZXh0")])
                    (Buffer.from_base64 "AAECAwQFBgcICQoLDA0ODw==")
                    (Buffer.from_base64 "sSJPRgqOJk+Y4h3Dq8ho9HiJ3pb25wCvbkK7CMgvMms=")
                    (Buffer.from_utf8 "invalid ciphertext")
                    eq_refl eq_refl eq_refl eq_refl eq_refl eq_refl eq_refl)).
    + reflexivity.
    + cbn. lia.
Defined.

(** * Keys and instances *)

Lemma generateKey_randomBytes (cipher : Cipher) (rng : NodeCrypto.Entropy) :
  fst (generateKey cipher rng)
  = Buffer.toString_base64 (fst (NodeCrypto.randomBytes (keyLength (ciphers cipher)) rng)).
Proof. reflexivity. Qed.

(** The constructor on the base64 text of some bytes: their number decides. *)
Lemma constructor_base64 (bytes : Buffer.t) (cipher : option Cipher) :
  constructor (EncryptionModuleOptions.make (Buffer.toString_base64 bytes) cipher)
  = let c := resolved_cipher (EncryptionModuleOptions.make (Buffer.toString_base64 bytes) cipher) in
    if (List.length bytes =? keyLength (ciphers c))%nat
    then Ok {| key := bytes; cipher := c |}
    else Throw (UnableToInitialize
                  ("The decoded key must be " ++ JS.decimal (keyLength (ciphers c))
                   ++ " bytes long.")).
Proof.
  unfold constructor.
  fold (resolved_cipher (EncryptionModuleOptions.make (Buffer.toString_base64 bytes) cipher)).
  cbv zeta. rewrite decodeKey_cases. cbn [EncryptionModuleOptions.key].
  unfold canonical. rewrite toString_base64_canonical, from_base64_toString_base64.
  cbn [negb]. destruct (_ =? _)%nat; reflexivity.
Qed.

(** X9: the constructor returns an instance exactly when [options.key] is
    the base64 text (standard alphabet, padded) of as many bytes as the
    [keyLength] of the cipher, [aes-256-cbc] when the options name none; the
    instance holds those bytes and that cipher. *)
Theorem constructor_accepts_iff (options : EncryptionModuleOptions.t) (this : EncryptionService) :
  constructor options = Ok this
  <-> EncryptionModuleOptions.key options = Buffer.toString_base64 (key this)
      /\ List.length (key this) = keyLength (ciphers (resolved_cipher options))
      /\ cipher this = resolved_cipher options.
Proof.
  split.
  - intros H. destruct (constructor_Ok options this H) as (Hc & -> & Hl).
    cbn [key cipher] in *. unfold canonical in Hc. apply String.eqb_eq in Hc.
    repeat split; [now symmetry | assumption].
  - destruct options as [k c], this as [bytes c']. cbn [EncryptionModuleOptions.key key cipher].
    intros (-> & Hl & ->). rewrite constructor_base64. cbv zeta.
    apply Nat.eqb_eq in Hl.
    unfold resolved_cipher in *. cbn [EncryptionModuleOptions.cipher] in *.
    now rewrite Hl.
Qed.

(** X10: a key generated for one cipher and given to the constructor with a
    cipher, or with none: the instance is built, on the bytes drawn from the
    random source, exactly when the two ciphers have keys of one length;
    otherwise the constructor raises [UnableToInitialize] with the length
    reason. *)
Theorem constructor_of_generated_key
  (generated : Cipher) (configured : option Cipher) (rng : NodeCrypto.Entropy) :
  let options := EncryptionModuleOptions.make (fst (generateKey generated rng)) configured in
  constructor options
  = if (keyLength (ciphers generated) =? keyLength (ciphers (resolved_cipher options)))%nat
    then Ok {| key := map rng (seq 0 (keyLength (ciphers generated)));
               cipher := resolved_cipher options |}
    else Throw (UnableToInitialize
                  ("The decoded key must be "
                   ++ JS.decimal (keyLength (ciphers (resolved_cipher options)))
                   ++ " bytes long.")).
Proof.
  cbv zeta. rewrite generateKey_randomBytes, constructor_base64. cbv zeta.
  rewrite randomBytes_length. reflexivity.
Qed.

(** * The payload of [encrypt] *)

Module Lengths.
Import NodeCrypto.

Lemma chunks_le {A : Type} (n : nat) (l : list A) :
  0 < n -> Forall (fun c => List.length c <= n) (chunks n l).
Proof.
  intros Hn. unfold chunks.
  induction l as [l IH] using (well_founded_induction (Wf_nat.well_founded_ltof _ (@List.length A))).
  destruct l as [|x l]; [constructor|].
  cbn [List.length chunks_go].
  assert (Hs : List.length (skipn n (x :: l)) < List.length (x :: l)).
  { rewrite length_skipn. cbn [List.length]. lia. }
  constructor.
  - rewrite length_firstn. lia.
  - rewrite AES.chunks_go_enough by (assumption || cbn [List.length] in *; lia).
    apply (IH _ Hs).
Qed.

Lemma concat_length_whole {A : Type} (n : nat) (blocks : list (list A)) :
  Forall (fun c => List.length c = n) blocks ->
  List.length (List.concat blocks) = n * List.length blocks.
Proof.
  induction 1 as [|b blocks Hb _ IH]; [cbn; lia|].
  cbn [List.concat List.length]. rewrite length_app, IH, Hb. lia.
Qed.

Lemma pkcs7_pad_length_eq (data : list byte) :
  List.length (pkcs7_pad data) = 16 * (List.length data / 16 + 1).
Proof.
  unfold pkcs7_pad. rewrite length_app, repeat_length.
  pose proof (Nat.mod_upper_bound (List.length data) 16 ltac:(lia)).
  pose proof (Nat.div_mod_eq (List.length data) 16). lia.
Qed.

Lemma cbc_encrypt_length (key iv data : list byte) :
  List.length (cbc_encrypt key iv data) = 16 * (List.length data / 16 + 1).
Proof.
  unfold cbc_encrypt. rewrite AES.cbc_encrypt_blocks_length.
  rewrite <- (concat_length_whole 16)
    by (apply AES.chunks_whole; [lia | apply AES.pkcs7_pad_length]).
  rewrite AES.concat_chunks by lia. apply pkcs7_pad_length_eq.
Qed.

Lemma ctr_blocks_length (ks : list state) (iv : list byte) (blocks : list (list byte)) :
  Forall (fun c => List.length c <= 16) blocks ->
  forall ctr, List.length (ctr_blocks ks iv ctr blocks) = List.length (List.concat blocks).
Proof.
  induction 1 as [|b blocks Hb _ IH]; intros ctr; [reflexivity|].
  cbn [ctr_blocks List.concat]. rewrite !length_app, IH, AES.xor_bytes_length.
  rewrite AES.encrypt_block_length. lia.
Qed.

Lemma gcm_encrypt_length (key iv data : list byte) :
  List.length (gcm_encrypt key iv data) = List.length data.
Proof.
  unfold gcm_encrypt. rewrite ctr_blocks_length by (apply chunks_le; lia).
  now rewrite AES.concat_chunks by lia.
Qed.

End Lengths.

(** The cipher runs on a key and an IV of the lengths of the table. *)
Lemma createCipheriv_constructed (this : EncryptionService) (iv data : list byte) :
  List.length (key this) = keyLength (ciphers (cipher this)) ->
  List.length iv = ivLength (ciphers (cipher this)) ->
  exists cipherText,
    NodeCrypto.createCipheriv_update_final (algorithm (cipher this)) (key this) iv data
    = Ok cipherText
    /\ List.length cipherText
       = match cipher this with
         | AES_128_CBC | AES_256_CBC => 16 * (List.length data / 16 + 1)
         | AES_128_GCM | AES_256_GCM => List.length data
         end.
Proof.
  intros Hk Hiv.
  destruct (cipher this); cbn [algorithm ciphers keyLength ivLength] in *;
    cbn [NodeCrypto.createCipheriv_update_final]; rewrite Hk, Hiv; cbn [Nat.eqb negb];
    eexists; (split; [reflexivity|]);
    apply Lengths.cbc_encrypt_length || apply Lengths.gcm_encrypt_length.
Qed.



Section Payloads.
Context {rt : Runtime}.

(** [decrypt] on a payload in wire format. *)
Lemma decrypt_wire (this : EncryptionService) (iv hmac cipherText : Buffer.t) :
  decrypt this (wire iv hmac cipherText)
  = catch
      (aead <- (iv' <- decodeIV this (JS.Str (Buffer.toString_base64 iv)) ;;
                cipherText' <- decodeCipherText this (JS.Str (Buffer.toString_base64 cipherText)) ;;
                Ok (AEADPayload.make iv' hmac cipherText')) ;;
       verifyHmac this (AEADPayload.cipherText aead) (AEADPayload.iv aead)
         (AEADPayload.hmac aead) ;;;
       decrypted <- NodeCrypto.createDecipheriv_update_final
                      (algorithm (cipher this)) (key this) (AEADPayload.iv aead)
                      (AEADPayload.cipherText aead) ;;
       Ok (Buffer.toString decrypted))
      (fun e => Throw (UnableToDecrypt (message e))).
Proof. unfold decrypt. now rewrite decodeAEADPayload_wire. Qed.

(** X12: on an instance the constructor returned for a GCM cipher, [encrypt]
    returns a payload for every plaintext, and [decrypt] refuses that very
    payload: with the block-length reason when the plaintext is no whole
    number of 16-byte blocks, and with the decipher's complaint about
    authentication when it is one (the empty plaintext included). *)
Theorem gcm_round_trip_reason
  (options : EncryptionModuleOptions.t) (this : EncryptionService)
  (plaintext : string) (rng : NodeCrypto.Entropy) :
  constructor options = Ok this ->
  cipher this = AES_128_GCM \/ cipher this = AES_256_GCM ->
  exists encrypted,
    fst (encrypt this plaintext rng) = Ok encrypted
    /\ decrypt this encrypted
       = Throw (UnableToDecrypt
                  (if (List.length (Buffer.from_utf8 plaintext) mod 16 =? 0)%nat
                   then "Unsupported state or unable to authenticate data"
                   else "The length of the decoded ciphertext is not a multiple of the cipher's block length.")).
Proof.
  intros Hnew Hgcm. destruct (constructor_Ok options this Hnew) as (_ & _ & Hk).
  pose proof (generateIV_length this rng) as Hiv.
  set (iv := fst (generateIV this rng)) in *.
  destruct (createCipheriv_constructed this iv (Buffer.from_utf8 plaintext) Hk Hiv)
    as (ct & Hc & Hl).
  exists (wire iv (computeHmac this ct iv) ct). split.
  - rewrite encrypt_wire. cbv zeta. fold iv. now rewrite Hc.
  - rewrite decrypt_wire, decodeIV_base64, decodeCipherText_base64, Hiv, Nat.eqb_refl.
    cbn [negb bind].
    assert (H : blockLength (ciphers (cipher this)) = 16
                /\ List.length ct = List.length (Buffer.from_utf8 plaintext)
                /\ exists n, algorithm (cipher this) = NodeCrypto.aes_gcm n
                             /\ List.length (key this) = n /\ List.length iv = 12).
    { destruct Hgcm as [E | E]; rewrite E in *; cbn [ciphers keyLength ivLength algorithm] in *;
        (split; [reflexivity|]); (split; [assumption|]); eexists; repeat split; eassumption. }
    destruct H as (-> & <- & n & -> & Hn & Hiv12).
    destruct (List.length ct mod 16 =? 0)%nat; cbn [negb bind catch]; [|reflexivity].
    unfold verifyHmac. rewrite timingSafeEqual_refl. cbn [bind negb].
    cbn [NodeCrypto.createDecipheriv_update_final AEADPayload.iv AEADPayload.cipherText].
    rewrite Hn, Hiv12, Nat.eqb_refl.
    reflexivity.
Qed.

(** X13: a payload that one instance encrypted, given to an instance for a
    cipher with another IV length (a CBC payload to a GCM instance or the
    reverse), is refused with the IV length reason, the two lengths written
    in it, whatever the keys of the two instances are. *)
Theorem decrypt_payload_of_other_cipher
  (this that : EncryptionService) (plaintext : string) (rng : NodeCrypto.Entropy)
  (encrypted : string) :
  fst (encrypt this plaintext rng) = Ok encrypted ->
  ivLength (ciphers (cipher this)) <> ivLength (ciphers (cipher that)) ->
  decrypt that encrypted
  = Throw (UnableToDecrypt
             ("The decoded IV is not the correct length. Expected "
              ++ JS.decimal (ivLength (ciphers (cipher that)))
              ++ " bytes, got " ++ JS.decimal (ivLength (ciphers (cipher this)))
              ++ " bytes.")).
Proof.
  intros He Hne. destruct (encrypt_Ok this plaintext rng encrypted He) as (ct & _ & ->).
  rewrite decrypt_wire, decodeIV_base64, generateIV_length.
  apply Nat.eqb_neq in Hne. rewrite Hne. reflexivity.
Qed.

(** X14: over any sequence of calls on an instance, every [encrypt] takes
    [ivLength] bytes from the random source, whether it returns or throws,
    and [decrypt] takes none: after the sequence the source stands
    [ivLength] times the number of [encrypt] calls further. *)
Theorem run_draws_iv_per_encrypt (w : World) (calls : list Call) (i : nat) :
  entropy (run w calls) i
  = entropy w (ivLength (ciphers (cipher (self w))) * encrypt_calls calls + i).
Proof.
  revert w i. induction calls as [|c calls IH]; intros w i.
  - cbn [run encrypt_calls]. f_equal. lia.
  - cbn [run]. rewrite IH, perform_self.
    destruct c as [plaintext | encrypted]; cbn [perform encrypt_calls].
    + pose proof (encrypt_entropy (self w) plaintext (entropy w)) as He.
      destruct (encrypt (self w) plaintext (entropy w)) as [r rng']. cbn [snd entropy] in *.
      subst rng'. cbn [generateIV NodeCrypto.randomBytes snd]. f_equal. lia.
    + reflexivity.
Qed.

End Payloads.

Lemma constructor_gcm_service :
  constructor (EncryptionModuleOptions.make gcm_key (Some AES_128_GCM)) = Ok gcm_service.
Proof. reflexivity. Qed.

(** The 13 bytes of [Hello, world!] and the empty text, on the instance for
    [aes-128-gcm]. *)
Lemma gcm_round_trip_reason_witness :
  (exists encrypted,
     fst (encrypt gcm_service "Hello, world!" counting_entropy) = Ok encrypted
     /\ @decrypt strings_only gcm_service encrypted
        = Throw (UnableToDecrypt
                   "The length of the decoded ciphertext is not a multiple of the cipher's block length."))
  /\ (exists encrypted,
        fst (encrypt gcm_service EmptyString counting_entropy) = Ok encrypted
        /\ @decrypt strings_only gcm_service encrypted
           = Throw (UnableToDecrypt "Unsupported state or unable to authenticate data")).
Proof.
  split.
  - exact (@gcm_round_trip_reason strings_only _ gcm_service "Hello, world!" counting_entropy
             constructor_gcm_service (or_introl eq_refl)).
  - exact (@gcm_round_trip_reason strings_only _ gcm_service EmptyString counting_entropy
             constructor_gcm_service (or_introl eq_refl)).
Defined.

(** A payload of the instance for [aes-256-cbc], given to the instance for
    [aes-128-gcm]. *)
Lemma decrypt_payload_of_other_cipher_witness :
  fst (encrypt test_service "Hello, world!" counting_entropy) = Ok hello_payload
  /\ @decrypt strings_only gcm_service hello_payload
     = Throw (UnableToDecrypt
                "The decoded IV is not the correct length. Expected 12 bytes, got 16 bytes.").
Proof.
  split; [exact encrypt_hello|].
  exact (@decrypt_payload_of_other_cipher strings_only test_service gcm_service
           "Hello, world!" counting_entropy hello_payload encrypt_hello
           ltac:(cbn; lia)).
Defined.

(** * The key generator *)

Lemma ciphers_at_value (c : Cipher) : ciphers_at (Cipher_value c) = Entry c.
Proof. destruct c; reflexivity. Qed.

Lemma ciphers_at_Entry (cipher : string) (c : Cipher) :
  ciphers_at cipher = Entry c -> cipher = Cipher_value c.
Proof.
  unfold ciphers_at.
  destruct (find _ _) as [c'|] eqn:E.
  - intros [= ->]. apply find_some in E as [_ E]. apply String.eqb_eq in E. now symmetry.
  - destruct (existsb _ _); discriminate.
Qed.

Lemma ciphers_at_other (cipher : string) :
  (forall c, Cipher_value c <> cipher) ->
  ciphers_at cipher = (if existsb (String.eqb cipher) Object_prototype_keys
                       then Inherited else Absent).
Proof.
  intros H. destruct (ciphers_at cipher) as [c | |] eqn:E.
  - apply ciphers_at_Entry in E. now destruct (H c).
  - unfold ciphers_at in E. destruct (find _ _); [discriminate|].
    destruct (existsb _ _); [reflexivity | discriminate].
  - unfold ciphers_at in E. destruct (find _ _); [discriminate|].
    destruct (existsb _ _); [discriminate | reflexivity].
Qed.

Lemma ciphers_at_unknown (cipher : string) :
  (forall c, Cipher_value c <> cipher) ->
  ~ In cipher Object_prototype_keys ->
  ciphers_at cipher = Absent.
Proof.
  intros Hc Hp. rewrite (ciphers_at_other cipher Hc).
  destruct (existsb _ _) eqn:E; [|reflexivity].
  apply existsb_exists in E as (k & Hk & E). apply String.eqb_eq in E. now subst k.
Qed.

(** X15: given the name of a supported cipher, or no [--cipher] at all
    (then [aes-256-cbc]), both scripts print one line and nothing else and
    end normally; the line is a key the constructor accepts with the same
    cipher option, of 16 bytes for the 128-bit ciphers and of 32 for the
    others. *)
Theorem keygen_prints_accepted_key (configured : option Cipher) (rng : NodeCrypto.Entropy) :
  let option_cipher := option_map Cipher_value configured in
  exists printed,
    Keygen.main option_cipher rng
    = ({| Process.stdout := [printed]; Process.stderr := [] |}, Process.Completed)
    /\ KeygenService.main option_cipher rng
       = ({| Process.stdout := [printed]; Process.stderr := [] |}, Process.Completed)
    /\ exists this,
         constructor (EncryptionModuleOptions.make printed configured) = Ok this
         /\ Buffer.toString_base64 (key this) = printed
         /\ List.length (key this)
            = match configured with
              | Some AES_128_CBC | Some AES_128_GCM => 16
              | _ => 32
              end.
Proof.
  cbv zeta.
  set (c := match configured with Some c => c | None => AES_256_CBC end).
  exists (fst (generateKey c rng)).
  assert (Hc : match option_map Cipher_value configured with
               | Some text => text
               | None => Cipher_value AES_256_CBC
               end = Cipher_value c) by (destruct configured; reflexivity).
  unfold Keygen.main, KeygenService.main, KeygenService.generateKey_cast. cbv zeta.
  rewrite Hc, ciphers_at_value. repeat split.
  rewrite generateKey_randomBytes, constructor_base64. cbv zeta.
  unfold resolved_cipher. cbn [EncryptionModuleOptions.cipher]. fold c.
  rewrite randomBytes_length, Nat.eqb_refl.
  eexists. split; [reflexivity|]. cbn [key]. split; [reflexivity|].
  rewrite randomBytes_length. unfold c. destruct configured as [[]|]; reflexivity.
Qed.

(** X16: given a name that the table does not hold and that no object
    inherits, the script with [process.exit] writes one line to the error
    stream, naming the cipher and the four supported ones in the order of
    the table, prints no key and ends with status 1. *)
Theorem keygen_refuses_unsupported_cipher (cipher : string) (rng : NodeCrypto.Entropy) :
  (forall c, Cipher_value c <> cipher) ->
  ~ In cipher Object_prototype_keys ->
  Keygen.main (Some cipher) rng
  = ({| Process.stdout := [];
        Process.stderr :=
          ["The provided cipher " ++ String JSON.dquote cipher ++ String JSON.dquote
           " is not supported. Supported ciphers are: aes-128-cbc, aes-256-cbc, aes-128-gcm, aes-256-gcm"] |},
     Process.Exited 1).
Proof.
  intros Hc Hp. unfold Keygen.main. now rewrite (ciphers_at_unknown cipher Hc Hp).
Qed.

(** X17: given such a name, the script that calls the service writes the
    same line to the error stream and goes on to [generateKey], which throws
    a [TypeError] on the missing entry: the script prints no key and ends on
    the uncaught exception. *)
Theorem keygen_service_warns_and_throws (cipher : string) (rng : NodeCrypto.Entropy) :
  (forall c, Cipher_value c <> cipher) ->
  ~ In cipher Object_prototype_keys ->
  KeygenService.main (Some cipher) rng
  = ({| Process.stdout := [];
        Process.stderr :=
          ["The provided cipher " ++ String JSON.dquote cipher ++ String JSON.dquote
           " is not supported. Supported ciphers are: aes-128-cbc, aes-256-cbc, aes-128-gcm, aes-256-gcm"] |},
     Process.Uncaught (TypeError "Cannot read properties of undefined (reading 'keyLength')")).
Proof.
  intros Hc Hp. unfold KeygenService.main, KeygenService.generateKey_cast.
  now rewrite (ciphers_at_unknown cipher Hc Hp).
Qed.

(** X18: for a name that is not one of the four, neither script prints a
    key or ends normally, also when the name is one every object inherits
    ([toString], [constructor], ...), for which neither writes a warning. *)
Theorem keygen_prints_no_key_for_other_names (cipher : string) (rng : NodeCrypto.Entropy) :
  (forall c, Cipher_value c <> cipher) ->
  Process.stdout (fst (Keygen.main (Some cipher) rng)) = []
  /\ snd (Keygen.main (Some cipher) rng) <> Process.Completed
  /\ Process.stdout (fst (KeygenService.main (Some cipher) rng)) = []
  /\ (exists reason,
        snd (KeygenService.main (Some cipher) rng) = Process.Uncaught (TypeError reason))
  /\ (In cipher Object_prototype_keys ->
      Process.stderr (fst (Keygen.main (Some cipher) rng)) = []
      /\ Process.stderr (fst (KeygenService.main (Some cipher) rng)) = []).
Proof.
  intros Hc. unfold Keygen.main, KeygenService.main, KeygenService.generateKey_cast.
  rewrite (ciphers_at_other cipher Hc).
  destruct (existsb _ _) eqn:E; cbn [fst snd Process.stdout Process.stderr].
  - repeat split; try discriminate. eexists; reflexivity.
  - do 3 (split; [reflexivity || discriminate|]). split; [eexists; reflexivity|].
    intros Hin. exfalso.
    assert (Ht : existsb (String.eqb cipher) Object_prototype_keys = true)
      by (apply existsb_exists; exists cipher; split; [assumption | apply String.eqb_refl]).
    congruence.
Qed.

Lemma keygen_refuses_unsupported_cipher_witness :
  Keygen.main (Some "aes-192-cbc") counting_entropy
  = ({| Process.stdout := [];
        Process.stderr :=
          ["The provided cipher " ++ String JSON.dquote "aes-192-cbc" ++ String JSON.dquote
           " is not supported. Supported ciphers are: aes-128-cbc, aes-256-cbc, aes-128-gcm, aes-256-gcm"] |},
     Process.Exited 1).
Proof.
  apply (keygen_refuses_unsupported_cipher "aes-192-cbc" counting_entropy).
  - intros []; discriminate.
  - cbn. intuition discriminate.
Defined.

(** The name of a supported cipher in capitals: property names are compared
    as they are. *)
Lemma keygen_service_warns_and_throws_witness :
  KeygenService.main (Some "AES-256-CBC") counting_entropy
  = ({| Process.stdout := [];
        Process.stderr :=
          ["The provided cipher " ++ String JSON.dquote "AES-256-CBC" ++ String JSON.dquote
           " is not supported. Supported ciphers are: aes-128-cbc, aes-256-cbc, aes-128-gcm, aes-256-gcm"] |},
     Process.Uncaught (TypeError "Cannot read properties of undefined (reading 'keyLength')")).
Proof.
  apply (keygen_service_warns_and_throws "AES-256-CBC" counting_entropy).
  - intros []; discriminate.
  - cbn. intuition discriminate.
Defined.

(** [--cipher toString]: the table inherits a function of that name, so no
    warning is written, and [randomBytes] throws on its missing
    [keyLength]. *)
Lemma keygen_prints_no_key_for_other_names_witness :
  Keygen.main (Some "toString") counting_entropy
  = ({| Process.stdout := []; Process.stderr := [] |}, Process.Uncaught invalid_size)
  /\ KeygenService.main (Some "toString") counting_entropy
     = ({| Process.stdout := []; Process.stderr := [] |}, Process.Uncaught invalid_size)
  /\ Process.stdout (fst (Keygen.main (Some "toString") counting_entropy)) = []
  /\ snd (Keygen.main (Some "toString") counting_entropy) <> Process.Completed
  /\ Process.stdout (fst (KeygenService.main (Some "toString") counting_entropy)) = []
  /\ (exists reason,
        snd (KeygenService.main (Some "toString") counting_entropy)
        = Process.Uncaught (TypeError reason))
  /\ (In "toString" Object_prototype_keys ->
      Process.stderr (fst (Keygen.main (Some "toString") counting_entropy)) = []
      /\ Process.stderr (fst (KeygenService.main (Some "toString") counting_entropy)) = []).
Proof.
  do 2 (split; [reflexivity|]).
  apply (keygen_prints_no_key_for_other_names "toString" counting_entropy).
  intros []; discriminate.
Defined.

(** * The size of a payload *)

Lemma toString_base64_length (b : Buffer.t) :
  String.length (Buffer.toString_base64 b) = base64_length (List.length b).
Proof.
  unfold base64_length.
  induction b as [| x | x y | x y z rest IH] using list_ind3; try reflexivity.
  change (Buffer.toString_base64 (x :: y :: z :: rest))
    with (let x := Byte.to_N x in
          let y := Byte.to_N y in
          let z := Byte.to_N z in
          String (Buffer.base64_char (x / 4))
            (String (Buffer.base64_char ((x mod 4) * 16 + y / 16))
               (String (Buffer.base64_char ((y mod 16) * 4 + z / 64))
                  (String (Buffer.base64_char (z mod 64)) (Buffer.toString_base64 rest)))))%N.
  cbv zeta. cbn [String.length List.length]. rewrite IH.
  replace (S (S (S (List.length rest))) + 2) with (List.length rest + 2 + 1 * 3) by lia.
  rewrite Nat.div_add by lia. lia.
Qed.

Lemma from_utf8_length (s : string) : List.length (Buffer.from_utf8 s) = String.length s.
Proof.
  unfold Buffer.from_utf8, list_byte_of_string. rewrite length_map.
  induction s as [|c s IH]; [reflexivity|]. cbn [list_ascii_of_string List.length String.length].
  now rewrite IH.
Qed.

Lemma quote_length (s : string) :
  plain s = true -> String.length (JSON.quote s) = String.length s + 2.
Proof.
  intros H. unfold JSON.quote. rewrite (escape_plain s H).
  cbn [String.length]. rewrite append_length. cbn [String.length]. lia.
Qed.

Lemma wire_length (iv hmac cipherText : Buffer.t) :
  String.length (wire iv hmac cipherText)
  = base64_length (35 + base64_length (List.length iv) + base64_length (List.length hmac)
                   + base64_length (List.length cipherText)).
Proof.
  unfold wire. rewrite toString_base64_length, from_utf8_length. f_equal.
  unfold JSON.stringify_record. cbn [JSON.stringify_members].
  rewrite !append_length, !quote_length by (reflexivity || apply plain_toString_base64).
  rewrite !toString_base64_length. cbn [String.length]. lia.
Qed.

(** X19: the size of a payload depends on the cipher and on the number of
    bytes of the plaintext only.  On an instance the constructor returned,
    [encrypt] returns base64 text of JSON text of 103 characters (CBC) or 95
    characters (GCM) besides the base64 text of the ciphertext, which has one
    to sixteen bytes more than the plaintext under CBC and as many as the
    plaintext under GCM. *)
Theorem encrypt_payload_length
  (options : EncryptionModuleOptions.t) (this : EncryptionService)
  (plaintext : string) (rng : NodeCrypto.Entropy) :
  constructor options = Ok this ->
  exists encrypted,
    fst (encrypt this plaintext rng) = Ok encrypted
    /\ String.length encrypted
       = match cipher this with
         | AES_128_CBC | AES_256_CBC =>
             base64_length (103 + base64_length (16 * (String.length plaintext / 16 + 1)))
         | AES_128_GCM | AES_256_GCM =>
             base64_length (95 + base64_length (String.length plaintext))
         end.
Proof.
  intros Hnew. destruct (constructor_Ok options this Hnew) as (_ & _ & Hk).
  pose proof (generateIV_length this rng) as Hiv.
  destruct (createCipheriv_constructed this (fst (generateIV this rng))
              (Buffer.from_utf8 plaintext) Hk Hiv) as (ct & Hc & Hl).
  rewrite from_utf8_length in Hl.
  eexists. rewrite encrypt_wire. cbv zeta. rewrite Hc. cbn [bind]. split; [reflexivity|].
  rewrite wire_length, computeHmac_length, Hiv, Hl.
  destruct (cipher this); reflexivity.
Qed.

(** The payload of [Hello, world!] under [aes-256-cbc] has 172 characters. *)
Lemma encrypt_payload_length_witness :
  exists encrypted,
    fst (encrypt test_service "Hello, world!" counting_entropy) = Ok encrypted
    /\ String.length encrypted = 172.
Proof.
  exact (encrypt_payload_length (EncryptionModuleOptions.make test_key (Some AES_256_CBC))
           test_service "Hello, world!" counting_entropy constructor_test_service).
Defined.
